(** * VideoGenAi: the generation-and-polling workflow of [src/app/page.tsx]

    A shallow embedding of the [VideoGenerator] component's handlers
    ([addLog], [generateVideo], [pollVideoStatus], [resetGenerator]) as
    programs of a small state-and-exception monad over an explicit
    [World]: the React state of the component, the replies of the two
    proxy endpoints, a clock, and a ghost trace of the effects performed.
    The two proxy routes ([src/app/api/status/[videoId]/route.ts] and
    [src/unnamed/part_000]) and [downloadVideo] follow, as functions of
    what the server's engine, the upstream service and the browser
    contribute.

    Conventions.
    - A JavaScript string is a [string]; every [ascii] stands for one
      UTF-16 code unit below 256, so [String.length] is [.length].
    - A JavaScript number that the component computes (progress, attempt
      counter, millisecond delays) is a [Z].  JSON numbers are integers
      of magnitude below 2^53, the ones that [Number.prototype.toString]
      prints digit for digit.
    - [undefined] is [None] of [option JSON].
    - The network is a total function from the number of fetches issued
      so far to what the next [fetch] settles to; it is never changed.
    - An [await] hands control back to the same handler: a handler runs
      to completion before the next user action is dispatched.  Only
      [setTimeout] moves the clock. *)

From Stdlib Require Import ZArith List String Ascii Bool Lia Sorted.
From Stdlib Require Import DecimalString.
From Equations Require Import Equations.
Import ListNotations.

Set Warnings "-register-all".

Open Scope string_scope.
Open Scope Z_scope.

(** ** JavaScript values *)

(** A value produced by [JSON.parse] / [Response.json()].  An object is
    the list of its own properties, each name once, looked up by name. *)
Inductive JSON : Type :=
| JNull
| JBool (b : bool)
| JNum (n : Z)
| JStr (s : string)
| JArr (items : list JSON)
| JObj (fields : list (string * JSON)).

(** A JavaScript value: [None] is [undefined]. *)
Definition JSValue : Type := option JSON.

Fixpoint assoc (k : string) (fields : list (string * JSON)) : JSValue :=
  match fields with
  | [] => None
  | (k', v) :: rest => if String.eqb k k' then Some v else assoc k rest
  end.

(** [v.name] on a value that is neither [null] nor [undefined].  None of
    the names the component reads ([data], [status], [video_url],
    [output], [error], [message], [video_id]) exists on a prototype, so
    primitives and arrays answer [undefined]. *)
Definition prop (v : JSON) (name : string) : JSValue :=
  match v with
  | JObj fields => assoc name fields
  | _ => None
  end.

(** [v?.name]: optional chaining. *)
Definition opt_chain (v : JSValue) (name : string) : JSValue :=
  match v with
  | None | Some JNull => None
  | Some o => prop o name
  end.

Notation "v ?. name" := (opt_chain v name)
  (at level 7, left associativity, format "v ?. name").

(** ToBoolean. *)
Definition truthy (v : JSValue) : bool :=
  match v with
  | None | Some JNull => false
  | Some (JBool b) => b
  | Some (JNum n) => negb (n =? 0)
  | Some (JStr s) => negb (String.eqb s "")
  | Some (JArr _) | Some (JObj _) => true
  end.

(** [a || b]. *)
Definition js_or (a b : JSValue) : JSValue := if truthy a then a else b.

(** Number.prototype.toString on an integer. *)
Definition string_of_Z (n : Z) : string := NilZero.string_of_int (Z.to_int n).

(** ToString of a parsed JSON value, as the [Error] constructor and
    template literals apply it. *)
Fixpoint to_string (v : JSON) : string :=
  match v with
  | JNull => "null"
  | JBool true => "true"
  | JBool false => "false"
  | JNum n => string_of_Z n
  | JStr s => s
  | JArr items =>
      (fix join (l : list JSON) : string :=
         match l with
         | [] => ""
         | x :: rest =>
             let sx := match x with JNull => "" | _ => to_string x end in
             match rest with
             | [] => sx
             | _ :: _ => sx ++ "," ++ join rest
             end
         end) items
  | JObj _ => "[object Object]"
  end.

(** ToString of a value that may be [undefined]. *)
Definition js_to_string (v : JSValue) : string :=
  match v with
  | None => "undefined"
  | Some j => to_string j
  end.

(** [v === "lit"]. *)
Definition strict_eq_str (v : JSValue) (lit : string) : bool :=
  match v with
  | Some (JStr s) => String.eqb s lit
  | _ => false
  end.

(** WhiteSpace and LineTerminator code units below 256: TAB, LF, VT, FF,
    CR, SP and NBSP. *)
Definition is_space (c : ascii) : bool :=
  let n := nat_of_ascii c in
  ((9 <=? n) && (n <=? 13) || (n =? 32) || (n =? 160))%nat.

Fixpoint trim_start (s : string) : string :=
  match s with
  | EmptyString => EmptyString
  | String c rest => if is_space c then trim_start rest else s
  end.

(** Drops the trailing white space. *)
Fixpoint trim_end (s : string) : string :=
  match s with
  | EmptyString => EmptyString
  | String c rest =>
      match trim_end rest with
      | EmptyString => if is_space c then EmptyString else String c EmptyString
      | rest' => String c rest'
      end
  end.

(** String.prototype.trim. *)
Definition trim (s : string) : string := trim_end (trim_start s).

(** A thrown value: an [Error] instance with its [message], or anything
    else. *)
Inductive Thrown : Type :=
| ErrorObject (message : string)
| NonError.

(** The message of the TypeError raised by reading property [name] of
    [null] or [undefined] (V8's wording). *)
Definition nullish_read_message (what name : string) : string :=
  "Cannot read properties of " ++ what ++ " (reading '" ++ name ++ "')".

(** [v.name] where [v] may be [null] or [undefined]: a TypeError then. *)
Definition member (v : JSValue) (name : string) : Thrown + JSValue :=
  match v with
  | None => inl (ErrorObject (nullish_read_message "undefined" name))
  | Some JNull => inl (ErrorObject (nullish_read_message "null" name))
  | Some o => inr (prop o name)
  end.

(** ** Component state *)

(** [LogEntry["type"]]. *)
Inductive LogType : Type := info | success | error | warning.

Record LogEntry : Type := mkLogEntry {
  id : string;
  timestamp : string;
  type : LogType;
  message : string
}.

(** [VideoStatus["status"]]. *)
Inductive Status : Type := idle | generating | processing | completed | failed.

(** [interface VideoStatus].  The optional fields hold whatever the
    remote reply carried: [videoId] and [videoUrl] are stored as
    received, without conversion. *)
Record VideoStatus : Type := mkVideoStatus {
  status : Status;
  videoId : JSValue;
  videoUrl : JSValue;
  progress : Z;
  vs_error : option string
}.

(** The object literal [{ status, progress }] and its variants: fields
    that the literal does not mention are absent. *)
Definition status_only (s : Status) (p : Z) : VideoStatus :=
  mkVideoStatus s None None p None.

(** ** The two endpoints, as seen by [fetch] *)

(** A [Response]: its [ok] flag and what [json()] settles to. *)
Record Response : Type := mkResponse {
  ok : bool;
  body : Thrown + JSON
}.

(** What [fetch] settles to. *)
Inductive FetchOutcome : Type :=
| Rejected (reason : Thrown)
| Responded (res : Response).

(** ** Observable effects *)

Inductive Event : Type :=
| EvFetch (url : string) (init : option JSON)
    (* fetch(url) or fetch(url, { method: "POST", body }) *)
| EvSetVideoStatus (next : VideoStatus)
    (* setVideoStatus(next) *)
| EvUpdateProgress (percent : Z) (next : VideoStatus)
    (* setVideoStatus((prev) => ({ ...prev, progress })), with its result *)
| EvSleep (ms : Z).
    (* await new Promise((resolve) => setTimeout(resolve, ms)) *)

(** ** The world a handler runs in *)

Record World : Type := mkWorld {
  (* React state of the component *)
  prompt : string;
  videoStatus : VideoStatus;
  logs : list LogEntry;
  (* videoRef.current: [None] when null, otherwise the element's src *)
  videoRef : option string;
  (* environment: the reply to the n-th fetch, the number of fetches
     issued so far, Date.now() and toLocaleTimeString *)
  network : nat -> FetchOutcome;
  fetches : nat;
  clock : Z;
  locale_time : Z -> string;
  (* ghost: every effect so far, oldest first *)
  trace : list Event
}.

Definition set_videoStatus (v : VideoStatus) (w : World) : World :=
  mkWorld (prompt w) v (logs w) (videoRef w)
          (network w) (fetches w) (clock w) (locale_time w) (trace w).

Definition set_logs (l : list LogEntry) (w : World) : World :=
  mkWorld (prompt w) (videoStatus w) l (videoRef w)
          (network w) (fetches w) (clock w) (locale_time w) (trace w).

Definition set_videoRef (r : option string) (w : World) : World :=
  mkWorld (prompt w) (videoStatus w) (logs w) r
          (network w) (fetches w) (clock w) (locale_time w) (trace w).

Definition set_prompt (s : string) (w : World) : World :=
  mkWorld s (videoStatus w) (logs w) (videoRef w)
          (network w) (fetches w) (clock w) (locale_time w) (trace w).

Definition count_fetch (w : World) : World :=
  mkWorld (prompt w) (videoStatus w) (logs w) (videoRef w)
          (network w) (S (fetches w)) (clock w) (locale_time w) (trace w).

Definition advance_clock (ms : Z) (w : World) : World :=
  mkWorld (prompt w) (videoStatus w) (logs w) (videoRef w)
          (network w) (fetches w) (clock w + ms) (locale_time w) (trace w).

Definition emit (e : Event) (w : World) : World :=
  mkWorld (prompt w) (videoStatus w) (logs w) (videoRef w)
          (network w) (fetches w) (clock w) (locale_time w) (trace w ++ [e]).

(** ** The monad of handlers: state and exceptions *)

Inductive Completion (A : Type) : Type :=
| Normal (a : A)
| Abrupt (e : Thrown).
Arguments Normal {A} a.
Arguments Abrupt {A} e.

Definition M (A : Type) : Type := World -> Completion A * World.

Definition ret {A} (a : A) : M A := fun w => (Normal a, w).

Definition bind {A B} (c : M A) (k : A -> M B) : M B :=
  fun w =>
    match c w with
    | (Normal a, w') => k a w'
    | (Abrupt e, w') => (Abrupt e, w')
    end.

(** [throw e]. *)
Definition throw {A} (e : Thrown) : M A := fun w => (Abrupt e, w).

(** [try { c } catch (error) { handler error }]. *)
Definition try_catch {A} (c : M A) (handler : Thrown -> M A) : M A :=
  fun w =>
    match c w with
    | (Normal a, w') => (Normal a, w')
    | (Abrupt e, w') => handler e w'
    end.

Definition modify (f : World -> World) : M unit := fun w => (Normal tt, f w).
Definition gets {A} (f : World -> A) : M A := fun w => (Normal (f w), w).

Declare Scope js_scope.
Delimit Scope js_scope with js.
Notation "x <- c ;; k" := (bind c (fun x => k))
  (at level 100, c at next level, right associativity) : js_scope.
Notation "c ;; k" := (bind c (fun _ => k))
  (at level 100, right associativity) : js_scope.
Open Scope js_scope.

(** A step that either throws or yields a value. *)
Definition lift {A} (r : Thrown + A) : M A :=
  match r with
  | inl e => throw e
  | inr a => ret a
  end.

(** [new Error(v)]: the message is ToString of the argument, empty when
    the argument is [undefined]. *)
Definition new_Error (v : JSValue) : Thrown :=
  ErrorObject (match v with None => "" | Some j => to_string j end).

(** [error instanceof Error ? error.message : fallback]. *)
Definition error_message (e : Thrown) (fallback : string) : string :=
  match e with
  | ErrorObject m => m
  | NonError => fallback
  end.

(** ** Primitive effects *)

(** [setVideoStatus(v)]. *)
Definition setVideoStatus (v : VideoStatus) : M unit :=
  modify (fun w => emit (EvSetVideoStatus v) (set_videoStatus v w)).

(** The object [{ ...prev, progress }]. *)
Definition with_progress (prev : VideoStatus) (progress : Z) : VideoStatus :=
  mkVideoStatus (status prev) (videoId prev) (videoUrl prev) progress (vs_error prev).

(** [setVideoStatus((prev) => ({ ...prev, progress }))]. *)
Definition setVideoStatus_progress (progress : Z) : M unit :=
  modify (fun w =>
    let next := with_progress (videoStatus w) progress in
    emit (EvUpdateProgress progress next) (set_videoStatus next w)).

(** [await fetch(url, init)]: the next reply of the network. *)
Definition fetch (url : string) (init : option JSON) : M Response :=
  fun w =>
    let w' := count_fetch (emit (EvFetch url init) w) in
    match network w (fetches w) with
    | Rejected e => (Abrupt e, w')
    | Responded r => (Normal r, w')
    end.

(** [await res.json()]. *)
Definition json (res : Response) : M JSON := lift (body res).

(** [await new Promise((resolve) => setTimeout(resolve, ms))]. *)
Definition sleep (ms : Z) : M unit :=
  modify (fun w => emit (EvSleep ms) (advance_clock ms w)).

(** [v.name] inside a handler. *)
Definition get_member (v : JSValue) (name : string) : M JSValue := lift (member v name).

(** ** The handlers of [VideoGenerator] *)

(** The initial React state. *)
Definition initial_prompt : string :=
  "Create an engaging introduction video for my business!".
Definition initial_videoStatus : VideoStatus := status_only idle 0.

(** [addLog(type, message)]: a fresh entry stamped with the clock is put
    in front of the previous ones. *)
Definition addLog (t : LogType) (msg : string) : M unit :=
  modify (fun w =>
    let newLog := mkLogEntry (string_of_Z (clock w)) (locale_time w (clock w)) t msg in
    set_logs (newLog :: logs w) w).

Definition maxAttempts : Z := 100.

(** The template literal [`/api/status/${videoId}`]. *)
Definition status_url (videoId : JSValue) : string :=
  "/api/status/" ++ js_to_string videoId.

(** How one pass through the body of the [while] loop ends: by falling
    off the end of the [try] statement after [attempts++], or by
    [return]. *)
Inductive Ctl : Type := Next | Return.

(** The [try] block of the loop body, for the current value of
    [attempts]. *)
Definition poll_try (videoId : JSValue) (attempts : Z) : M Ctl :=
  addLog info ("Checking video status... (Attempt " ++ string_of_Z (attempts + 1)
               ++ "/" ++ string_of_Z maxAttempts ++ ")");;
  statusRes <- fetch (status_url videoId) None;;
  statusData <- json statusRes;;
  (if negb (ok statusRes) then
     e <- get_member (Some statusData) "error";;
     throw (new_Error (js_or e?."message" (Some (JStr "Failed to check status"))))
   else ret tt);;
  data <- get_member (Some statusData) "data";;
  let status := data?."status" in
  let progress := Z.min (30 + attempts * 2) 90 in
  if strict_eq_str status "completed" then
    (* statusData.data is read again for each operand that is evaluated;
       it is the value [data] already read *)
    let videoUrl := js_or data?."video_url" data?."output"?."video_url" in
    (if negb (truthy videoUrl) then
       throw (ErrorObject "Video URL not found in response")
     else ret tt);;
    setVideoStatus (mkVideoStatus completed videoId videoUrl 100 None);;
    addLog success "Video generation completed successfully!";;
    ret Return
  else if strict_eq_str status "failed" then
    throw (new_Error (js_or data?."error"?."message" (Some (JStr "Video generation failed"))))
  else
    setVideoStatus_progress progress;;
    addLog info ("Status: " ++ js_to_string (js_or status (Some (JStr "processing"))) ++ "...");;
    sleep 3000;;
    (* attempts++ : carried out by the loop when the body ends in [Next] *)
    ret Next.

(** The [try { ... } catch (error) { ... }] statement of the loop body. *)
Definition poll_attempt (videoId : JSValue) (attempts : Z) : M Ctl :=
  try_catch (poll_try videoId attempts)
    (fun err =>
       let errorMessage := error_message err "Status check failed" in
       setVideoStatus (mkVideoStatus failed None None 0 (Some errorMessage));;
       addLog error errorMessage;;
       ret Return).

(** The number of passes the loop condition still allows. *)
Definition remaining (attempts : Z) : nat := Z.to_nat (maxAttempts - attempts).
Arguments remaining : simpl never.

(** [while (attempts < maxAttempts) { ... }]: [Return] when the body
    returned from the function, [Next] when the condition became false. *)
Equations? poll_while (videoId : JSValue) (attempts : Z) : M Ctl
  by wf (remaining attempts) lt :=
poll_while videoId attempts with Z_lt_dec attempts maxAttempts := {
  | left _ => fun w =>
      match poll_attempt videoId attempts w with
      | (Normal Next, w') => poll_while videoId (attempts + 1) w'
      | r => r
      end
  | right _ => ret Next }.
Proof. clear poll_while. unfold remaining, maxAttempts in *. lia. Qed.

(** [pollVideoStatus(videoId)]. *)
Definition pollVideoStatus (videoId : JSValue) : M unit :=
  exit <- poll_while videoId 0;;
  match exit with
  | Return => ret tt
  | Next =>
      setVideoStatus (mkVideoStatus failed None None 0 (Some "Video generation timed out"));;
      addLog error "Video generation timed out after maximum attempts"
  end.

(** The request body built by [generateVideo]; [speed: 1.0] is the
    number 1. *)
Definition payload (prompt : string) : JSON :=
  JObj [
    ("video_inputs", JArr [
      JObj [
        ("character", JObj [
          ("type", JStr "avatar");
          ("avatar_id", JStr "Abigail_sitting_sofa_front");
          ("avatar_style", JStr "normal") ]);
        ("voice", JObj [
          ("type", JStr "text");
          ("input_text", JStr prompt);
          ("voice_id", JStr "119caed25533477ba63822d5d1552d25");
          ("speed", JNum 1) ]);
        ("background", JObj [ ("type", JStr "color"); ("value", JStr "#FFFFFF") ]) ] ]);
    ("dimension", JObj [ ("width", JNum 720); ("height", JNum 720) ]) ].

(** The [try] block of [generateVideo]. *)
Definition generate_try (prompt : string) : M unit :=
  addLog info "Sending request to HeyGen API...";;
  genRes <- fetch "/api/generate" (Some (payload prompt));;
  genData <- json genRes;;
  (* !genRes.ok || !genData.data?.video_id *)
  refused <- (if negb (ok genRes) then ret true
              else data <- get_member (Some genData) "data";;
                   ret (negb (truthy data?."video_id")));;
  (if refused : bool then
     e <- get_member (Some genData) "error";;
     throw (new_Error (js_or e?."message" (Some (JStr "Failed to generate video"))))
   else ret tt);;
  data <- get_member (Some genData) "data";;
  videoId <- get_member data "video_id";;
  setVideoStatus (mkVideoStatus processing videoId None 30 None);;
  addLog success ("Video generation started! ID: " ++ js_to_string videoId);;
  pollVideoStatus videoId.

(** [generateVideo()]. *)
Definition generateVideo : M unit :=
  prompt <- gets prompt;;
  if String.eqb (trim prompt) "" then
    addLog error "Please enter a prompt"
  else if Z.of_nat (String.length prompt) >? 1500 then
    addLog error "Prompt must be less than 1500 characters"
  else
    setVideoStatus (status_only generating 10);;
    addLog info "Starting video generation...";;
    try_catch (generate_try prompt)
      (fun err =>
         let errorMessage := error_message err "Unknown error occurred" in
         setVideoStatus (mkVideoStatus failed None None 0 (Some errorMessage));;
         addLog error ("Generation failed: " ++ errorMessage)).

(** [resetGenerator()]. *)
Definition resetGenerator : M unit :=
  setVideoStatus (status_only idle 0);;
  modify (set_logs []);;
  current <- gets videoRef;;
  match current with
  | Some _ => modify (set_videoRef (Some ""))
  | None => ret tt
  end.


(** The statements of [generateVideo] that follow
    [setVideoStatus({ status: "generating", progress: 10 })]. *)
Definition generate_started (prompt : string) : M unit :=
  addLog info "Starting video generation...";;
  try_catch (generate_try prompt)
    (fun err =>
       let errorMessage := error_message err "Unknown error occurred" in
       setVideoStatus (mkVideoStatus failed None None 0 (Some errorMessage));;
       addLog error ("Generation failed: " ++ errorMessage)).

(** ** User sessions *)

(** What the user can do to the page. *)
Inductive Action : Type :=
| TypePrompt (text : string)   (* onChange of the textarea: setPrompt *)
| ClickGenerate                (* onClick of "Generate Video" *)
| ClickReset.                  (* onClick of "Reset" *)

(** The [disabled] attribute of the generate button. *)
Definition generate_disabled (v : VideoStatus) : bool :=
  match status v with
  | generating | processing => true
  | _ => false
  end.

(** One user action, its handler run to completion. *)
Definition dispatch (a : Action) : M unit :=
  match a with
  | TypePrompt text => modify (set_prompt text)
  | ClickGenerate =>
      v <- gets videoStatus;;
      if generate_disabled v then ret tt else generateVideo
  | ClickReset => resetGenerator
  end.

(** The page as first rendered, in a given environment. *)
Definition initial_world (net : nat -> FetchOutcome) (now : Z) (fmt : Z -> string) : World :=
  mkWorld initial_prompt initial_videoStatus [] None net 0 now fmt [].

(** A sequence of user actions, each handled before the next one. *)
Definition session (acts : list Action) (w : World) : World :=
  fold_left (fun w a => snd (dispatch a w)) acts w.

(** ** Vocabulary of the statements *)

(** The effects a run added to the trace. *)
Definition since (w w' : World) : list Event :=
  skipn (List.length (trace w)) (trace w').

Definition is_fetch (e : Event) : bool :=
  match e with EvFetch _ _ => true | _ => false end.

(** Number of network calls in a trace. *)
Definition fetch_count (t : list Event) : nat := List.length (filter is_fetch t).

(** The percents passed to the progress update, oldest first. *)
Definition progress_calls (t : list Event) : list Z :=
  flat_map (fun e => match e with EvUpdateProgress p _ => [p] | _ => [] end) t.

(** The successive values of the [videoStatus] state, oldest first. *)
Definition statuses (t : list Event) : list VideoStatus :=
  flat_map (fun e => match e with
                     | EvSetVideoStatus v | EvUpdateProgress _ v => [v]
                     | _ => []
                     end) t.

(** [statusData.data] of a reply that passes the checks of the status
    query: the fetch settled, the HTTP status is a success, the body
    parsed and is not [null]. *)
Definition reply_data (r : FetchOutcome) : option JSValue :=
  match r with
  | Responded (mkResponse true (inr JNull)) => None
  | Responded (mkResponse true (inr v)) => Some (prop v "data")
  | _ => None
  end.

(** The reply reports the remote state [lit]. *)
Definition reports (lit : string) (r : FetchOutcome) : bool :=
  match reply_data r with
  | Some data => strict_eq_str data?."status" lit
  | None => false
  end.

(** The reply reports a state other than completed and failed. *)
Definition still_processing (r : FetchOutcome) : bool :=
  match reply_data r with
  | Some data => negb (strict_eq_str data?."status" "completed")
                 && negb (strict_eq_str data?."status" "failed")
  | None => false
  end.

(** The query failed at the transport level or with a non-success HTTP
    status. *)
Definition check_failed (r : FetchOutcome) : bool :=
  match r with
  | Rejected _ => true
  | Responded res => negb (ok res)
  end.

(** The percent shown on attempt [a]. *)
Definition displayed_progress (a : Z) : Z := Z.min (30 + a * 2) 90.

(** The [k] replies a run started in [w] receives first. *)
Definition reply (w : World) (k : nat) : FetchOutcome := network w (fetches w + k)%nat.

(** The result URL the component extracts from a reply: the primary field
    [data.video_url], else the nested [data.output.video_url]. *)
Definition result_url (r : FetchOutcome) : JSValue :=
  match reply_data r with
  | Some data => js_or data?."video_url" data?."output"?."video_url"
  | None => None
  end.

(** The two fields a result URL is looked for in. *)
Definition primary_url (r : FetchOutcome) : JSValue :=
  match reply_data r with
  | Some data => data?."video_url"
  | None => None
  end.

Definition fallback_url (r : FetchOutcome) : JSValue :=
  match reply_data r with
  | Some data => data?."output"?."video_url"
  | None => None
  end.

(** The reason the remote service gives for a failure: [data.error.message]. *)
Definition failure_reason (r : FetchOutcome) : JSValue :=
  match reply_data r with
  | Some data => data?."error"?."message"
  | None => None
  end.

(** The object [{ status: "failed", progress: 0, error: m }]. *)
Definition failed_with (m : string) : VideoStatus :=
  mkVideoStatus failed None None 0 (Some m).

(** The effects of the pass that ends the polling in state [v]. *)
Definition terminal_events (videoId : JSValue) (v : VideoStatus) : list Event :=
  [EvFetch (status_url videoId) None; EvSetVideoStatus v].

(** What a reply that ends the polling makes of the state [v]. *)
Definition terminal_spec (videoId : JSValue) (r : FetchOutcome) (v : VideoStatus) : Prop :=
  (* the shape of the terminal state *)
  ((reports "completed" r = true /\ truthy (result_url r) = true /\
    v = mkVideoStatus completed videoId (result_url r) 100 None)
   \/ exists m, v = failed_with m) /\
  (* its value, case by case *)
  (reports "completed" r = true -> truthy (result_url r) = true ->
   v = mkVideoStatus completed videoId (result_url r) 100 None) /\
  (reports "completed" r = true -> truthy (result_url r) = false ->
   v = failed_with "Video URL not found in response") /\
  (reports "failed" r = true ->
   v = failed_with (if truthy (failure_reason r)
                    then js_to_string (failure_reason r)
                    else "Video generation failed")) /\
  (check_failed r = true -> status v = failed) /\
  (forall e, r = Rejected e -> v = failed_with (error_message e "Status check failed")) /\
  (forall body, r = Responded (mkResponse false (inr body)) -> body <> JNull ->
   v = failed_with (if truthy (prop body "error")?."message"
                    then js_to_string (prop body "error")?."message"
                    else "Failed to check status")).

(** What no handler but [resetGenerator] touches: the environment, the
    prompt and the video element stay, the log only grows at the front. *)
Definition frame (w w' : World) : Prop :=
  network w' = network w /\ prompt w' = prompt w /\ videoRef w' = videoRef w /\
  locale_time w' = locale_time w /\ exists new, logs w' = (new ++ logs w)%list.

(** The effects of one pass that observes "processing" with counter
    [a], from the state [v]. *)
Definition processing_events (videoId : JSValue) (v : VideoStatus) (a : Z) : list Event :=
  [EvFetch (status_url videoId) None;
   EvUpdateProgress (displayed_progress a) (with_progress v (displayed_progress a));
   EvSleep 3000].

(** The effects of [k] passes that all observe "processing", the first
    one with counter [a], from the state [v]. *)
Fixpoint processing_run (videoId : JSValue) (v : VideoStatus) (a : Z) (k : nat) : list Event :=
  match k with
  | O => []
  | S k' => processing_events videoId v a ++ processing_run videoId v (a + 1) k'
  end.

(** The state a run that exhausts its attempts ends in. *)
Definition timeout_status : VideoStatus := failed_with "Video generation timed out".

(** The job identifier a creation reply carries: [genData.data.video_id]
    of a response with a success status whose body parsed and is not
    [null]. *)
Definition submitted_id (r : FetchOutcome) : JSValue :=
  match r with
  | Responded (mkResponse true (inr JNull)) => None
  | Responded (mkResponse true (inr v)) => (prop v "data")?."video_id"
  | _ => None
  end.

(** The network call of [generateVideo]. *)
Definition generate_events (prompt : string) : list Event :=
  [EvFetch "/api/generate" (Some (payload prompt))].

(** The last effects of a [pollVideoStatus] run: the state [final] it
    leaves, preceded by the query that ended the run unless the run
    timed out. *)
Definition closing (videoId : JSValue) (final : VideoStatus) (tail : list Event) : Prop :=
  tail = terminal_events videoId final \/
  (final = timeout_status /\ tail = [EvSetVideoStatus final]).

(** The states a run can end in. *)
Definition final_shape (videoId : JSValue) (final : VideoStatus) : Prop :=
  (exists url, truthy url = true /\ final = mkVideoStatus completed videoId url 100 None)
  \/ exists m, final = failed_with m.

(** The prompt passes the two checks of [generateVideo]. *)
Definition prompt_accepted (p : string) : Prop :=
  (String.length (trim p) > 0)%nat /\ (String.length p <= 1500)%nat.

(** The states one generation attempt goes through after
    [generating]: either the submission fails, or polling starts and
    ends after [n] progress updates in [final]. *)
Inductive attempt_tail (w : World) : list Event -> VideoStatus -> Prop :=
| tail_refused m :
    truthy (submitted_id (reply w 0)) = false ->
    attempt_tail w [EvSetVideoStatus (failed_with m)] (failed_with m)
| tail_polled n final closing_events :
    let videoId := submitted_id (reply w 0) in
    let started := mkVideoStatus processing videoId None 30 None in
    truthy videoId = true ->
    (n <= 100)%nat ->
    closing videoId final closing_events ->
    final_shape videoId final ->
    attempt_tail w
      (EvSetVideoStatus started :: processing_run videoId started 0 n ++ closing_events)
      final.

(** The record holds a job identifier. *)
Definition has_handle (v : VideoStatus) : bool :=
  match videoId v with Some _ => true | None => false end.

(** The invariant in the words of the specification: the identifier is
    present exactly in processing, in completed, and in a failed state
    that follows a successful submission of the same attempt; [submitted]
    tells whether the attempt under way has been accepted. *)
Fixpoint handle_invariant_as_stated (submitted : bool) (history : list VideoStatus) : bool :=
  match history with
  | [] => true
  | v :: later =>
      let submitted' :=
        match status v with
        | idle | generating => false
        | processing => true
        | completed | failed => submitted
        end in
      Bool.eqb (has_handle v)
               match status v with
               | processing | completed => true
               | failed => submitted'
               | idle | generating => false
               end
      && handle_invariant_as_stated submitted' later
  end.

(** The invariant the component keeps: the identifier is present, and
    truthy, exactly in processing and completed. *)
Definition handle_invariant (v : VideoStatus) : Prop :=
  (has_handle v = true <-> status v = processing \/ status v = completed) /\
  (has_handle v = true -> truthy (videoId v) = true).

(** Progress in the words of the specification: within [0,100] and never
    decreasing from one update of an attempt to the next. *)
Definition progress_claim_as_stated (history : list VideoStatus) : Prop :=
  Forall (fun v => 0 <= progress v <= 100) history /\
  StronglySorted Z.le (map progress history).

(** The status updates of the attempt that [generateVideo] runs in [w]. *)
Definition attempt_history (w : World) : list VideoStatus :=
  statuses (since w (snd (generateVideo w))).

(** ** Sample replies and worlds *)

Definition sample_id : JSValue := Some (JStr "v1").
Definition sample_url : JSON := JStr "https://files.example/v1.mp4".

Definition status_reply (fields : list (string * JSON)) : FetchOutcome :=
  Responded (mkResponse true (inr (JObj [("data", JObj fields)]))).

Definition processing_reply : FetchOutcome := status_reply [("status", JStr "processing")].
Definition completed_reply : FetchOutcome :=
  status_reply [("status", JStr "completed"); ("video_url", sample_url)].
Definition completed_fallback_reply : FetchOutcome :=
  status_reply [("status", JStr "completed"); ("output", JObj [("video_url", sample_url)])].
Definition completed_without_url_reply : FetchOutcome :=
  status_reply [("status", JStr "completed")].
Definition failed_reply : FetchOutcome :=
  status_reply [("status", JStr "failed"); ("error", JObj [("message", JStr "synthesis error")])].
Definition created_reply : FetchOutcome :=
  Responded (mkResponse true (inr (JObj [("data", JObj [("video_id", JStr "v1")])]))).
Definition refused_reply : FetchOutcome :=
  Responded (mkResponse false (inr (JObj [("error", JObj [("message", JStr "quota exceeded")])]))).

(** The network that answers with [l], then with [last] for ever. *)
Definition replies (l : list FetchOutcome) (last : FetchOutcome) : nat -> FetchOutcome :=
  fun n => nth n l last.

(** The page while job [v1] is being polled. *)
Definition polling_world (net : nat -> FetchOutcome) : World :=
  mkWorld initial_prompt (mkVideoStatus processing sample_id None 30 None) [] None
          net 0 0 (fun _ => "12:00:00") [].

(** The page after an attempt that completed, with one log entry. *)
Definition completed_world (net : nat -> FetchOutcome) : World :=
  mkWorld initial_prompt
          (mkVideoStatus completed sample_id (Some sample_url) 100 None)
          [mkLogEntry "0" "12:00:00" success "Video generation completed successfully!"]
          (Some "https://files.example/v1.mp4")
          net 0 0 (fun _ => "12:00:00") [].

(** ** The proxy routes: [src/app/api/status/[videoId]/route.ts] and
    [src/unnamed/part_000]

    A route handler is a function of the server environment, of its
    request and of what the upstream service answers; it yields the
    reply, or the exception the handler rejects with, and the upstream
    requests it issued.  Console output is not part of the model. *)

(** [String.prototype.includes]. *)
Fixpoint includes (needle haystack : string) : bool :=
  String.prefix needle haystack
  || match haystack with
     | EmptyString => false
     | String _ rest => includes needle rest
     end.

(** What the server's JavaScript engine contributes: [JSON.parse], and
    the message of the exception that [Response.json] raises for a status
    it refuses. *)
Record Runtime : Type := mkRuntime {
  JSON_parse : string -> Thrown + JSON;
  response_init_message : Z -> string
}.

(** An outgoing [fetch] of a route: method, URL, headers, and the value
    whose [JSON.stringify] is the body. *)
Record UpstreamRequest : Type := mkUpstreamRequest {
  req_method : string;
  req_url : string;
  req_headers : list (string * string);
  req_body : option JSON
}.

(** The upstream [Response]: status, [headers.get("content-type")] and
    what [text()] settles to. *)
Record UpstreamResponse : Type := mkUpstreamResponse {
  up_status : Z;
  up_content_type : option string;
  up_text : Thrown + string
}.

Inductive UpstreamOutcome : Type :=
| UpRejected (reason : Thrown)
| UpResponded (res : UpstreamResponse).

(** [Response.ok]: the status is in the range 200 to 299. *)
Definition status_ok (s : Z) : bool := (200 <=? s) && (s <=? 299).

(** [res.json()]: the text, parsed. *)
Definition up_json (rt : Runtime) (res : UpstreamResponse) : Thrown + JSON :=
  match up_text res with
  | inl e => inl e
  | inr text => JSON_parse rt text
  end.

(** What a route sends back: status and JSON body. *)
Record Reply : Type := mkReply {
  reply_status : Z;
  reply_body : JSON
}.

(** The statuses that admit no body. *)
Definition null_body_status (s : Z) : bool :=
  (s =? 101) || (s =? 103) || (s =? 204) || (s =? 205) || (s =? 304).

(** [NextResponse.json(body, { status })], which is [Response.json]: a
    RangeError outside 200..599, a TypeError for a null-body status. *)
Definition NextResponse_json (rt : Runtime) (body : JSON) (status : Z) : Thrown + Reply :=
  if (status <? 200) || (599 <? status) || null_body_status status
  then inl (ErrorObject (response_init_message rt status))
  else inr (mkReply status body).

(** The object [{ error: { message } }]. *)
Definition error_body (m : string) : JSON :=
  JObj [("error", JObj [("message", JStr m)])].

(** [!s] for a string that may be missing. *)
Definition js_not (s : option string) : bool :=
  match s with
  | None => true
  | Some s => String.eqb s ""
  end.

(** The result of a handler: its reply or the value it rejects with, and
    the upstream requests made. *)
Definition Handled : Type := (Thrown + Reply) * list UpstreamRequest.

(** The [catch] clause shared by the three handlers. *)
Definition server_error (rt : Runtime) (h : Handled) : Handled :=
  match h with
  | (inl err, calls) =>
      let errorMessage := error_message err "Unknown server error" in
      (NextResponse_json rt (error_body ("Server error: " ++ errorMessage)) 500, calls)
  | done => done
  end.

(** [{ error: data.error || { message } }], the body of the reply to an
    upstream error; reading [data.error] throws when [data] is [null]. *)
Definition upstream_error_body (data : JSON) (generic : string) : Thrown + JSON :=
  match member (Some data) "error" with
  | inl e => inl e
  | inr err =>
      match js_or err (Some (JObj [("message", JStr generic)])) with
      | Some e => inr (JObj [("error", e)])
      | None => inr (JObj [])   (* an undefined property is not serialised *)
      end
  end.

Module StatusRoute.

(** The request of [fetch(`https://api.heygen.com/v1/video_status.get?video_id=${videoId}`, ...)]. *)
Definition request (key videoId : string) : UpstreamRequest :=
  mkUpstreamRequest "GET"
    ("https://api.heygen.com/v1/video_status.get?video_id=" ++ videoId)
    [("X-Api-Key", key); ("Accept", "application/json")] None.

(** The [try] block of [GET]. *)
Definition GET_try (rt : Runtime) (HEYGEN_KEY : option string) (videoId : string)
    (upstream : UpstreamRequest -> UpstreamOutcome) : Handled :=
  match HEYGEN_KEY with
  | None | Some EmptyString =>
      (NextResponse_json rt (error_body "HeyGen API key not configured") 500, [])
  | Some key =>
      let req := request key videoId in
      (match upstream req with
       | UpRejected e => inl e
       | UpResponded heygenRes =>
           let contentType := up_content_type heygenRes in
           if js_not contentType
              || negb (includes "application/json" (match contentType with Some c => c | None => "" end))
           then
             match up_text heygenRes with
             | inl e => inl e
             | inr _ =>
                 NextResponse_json rt (error_body "Invalid response format from HeyGen API") 500
             end
           else
             match up_json rt heygenRes with
             | inl e => inl e
             | inr data =>
                 if negb (status_ok (up_status heygenRes)) then
                   match upstream_error_body data "HeyGen status API request failed" with
                   | inl e => inl e
                   | inr body => NextResponse_json rt body (up_status heygenRes)
                   end
                 else NextResponse_json rt data (up_status heygenRes)
             end
       end, [req])
  end.

(** [export async function GET(request, { params })]. *)
Definition GET (rt : Runtime) (HEYGEN_KEY : option string) (videoId : string)
    (upstream : UpstreamRequest -> UpstreamOutcome) : Handled :=
  server_error rt (GET_try rt HEYGEN_KEY videoId upstream).

End StatusRoute.

Module GenerateRoute.

(** The request of [fetch("https://api.heygen.com/v2/video/generate", ...)]. *)
Definition request (key : string) (body : JSON) : UpstreamRequest :=
  mkUpstreamRequest "POST" "https://api.heygen.com/v2/video/generate"
    [("Content-Type", "application/json"); ("X-Api-Key", key)] (Some body).

(** The [try] block of [POST]; [request_json] is what
    [await request.json()] settles to. *)
Definition POST_try (rt : Runtime) (HEYGEN_KEY : option string) (request_json : Thrown + JSON)
    (upstream : UpstreamRequest -> UpstreamOutcome) : Handled :=
  match request_json with
  | inl e => (inl e, [])
  | inr body =>
      match HEYGEN_KEY with
      | None | Some EmptyString =>
          (NextResponse_json rt (error_body "HeyGen API key not configured") 500, [])
      | Some key =>
          let req := request key body in
          (match upstream req with
           | UpRejected e => inl e
           | UpResponded heygenRes =>
               match up_text heygenRes with
               | inl e => inl e
               | inr text =>
                   match JSON_parse rt text with
                   | inl _ =>
                       NextResponse_json rt
                         (JObj [("error", JObj [("message", JStr "Invalid JSON response from HeyGen")]);
                                ("raw", JStr text)])
                         500
                   | inr data =>
                       if negb (status_ok (up_status heygenRes)) then
                         match upstream_error_body data "HeyGen API request failed" with
                         | inl e => inl e
                         | inr body => NextResponse_json rt body (up_status heygenRes)
                         end
                       else NextResponse_json rt data (up_status heygenRes)
                   end
               end
           end, [req])
      end
  end.

(** [export async function POST(request)]. *)
Definition POST (rt : Runtime) (HEYGEN_KEY : option string) (request_json : Thrown + JSON)
    (upstream : UpstreamRequest -> UpstreamOutcome) : Handled :=
  server_error rt (POST_try rt HEYGEN_KEY request_json upstream).

End GenerateRoute.

(** The status route of [src/unnamed/part_000], which parses the upstream
    body without looking at its content type. *)
Module StatusRouteUnchecked.

Definition GET_try (rt : Runtime) (HEYGEN_KEY : option string) (videoId : string)
    (upstream : UpstreamRequest -> UpstreamOutcome) : Handled :=
  match HEYGEN_KEY with
  | None | Some EmptyString =>
      (NextResponse_json rt (error_body "HeyGen API key not configured") 500, [])
  | Some key =>
      let req := StatusRoute.request key videoId in
      (match upstream req with
       | UpRejected e => inl e
       | UpResponded heygenRes =>
           match up_json rt heygenRes with
           | inl e => inl e
           | inr data =>
               if negb (status_ok (up_status heygenRes)) then
                 match upstream_error_body data "HeyGen status API request failed" with
                 | inl e => inl e
                 | inr body => NextResponse_json rt body (up_status heygenRes)
                 end
               else NextResponse_json rt data (up_status heygenRes)
           end
       end, [req])
  end.

Definition GET (rt : Runtime) (HEYGEN_KEY : option string) (videoId : string)
    (upstream : UpstreamRequest -> UpstreamOutcome) : Handled :=
  server_error rt (GET_try rt HEYGEN_KEY videoId upstream).

End StatusRouteUnchecked.

(** The [Response] that the page's [fetch] receives for a reply. *)
Definition client_view (r : Reply) : FetchOutcome :=
  Responded (mkResponse (status_ok (reply_status r)) (inr (reply_body r))).

(** ** The rest of the page: what is rendered, and [downloadVideo] *)

(** [getStatusColor()]. *)
Definition getStatusColor (v : VideoStatus) : string :=
  match status v with
  | generating | processing => "bg-blue-500"
  | completed => "bg-green-500"
  | failed => "bg-red-500"
  | idle => "bg-gray-500"
  end.

(** The badge under the textarea:
    [prompt.length > 1500 ? "Too long" : "Valid"]. *)
Definition length_badge (prompt : string) : string :=
  if Z.of_nat (String.length prompt) >? 1500 then "Too long" else "Valid".

(** [{videoStatus.videoUrl && (<Card> ... <video src={videoStatus.videoUrl}/>
    ... Download ... </Card>)}]: the player and its Download button are
    rendered when the URL is truthy. *)
Definition player_shown (v : VideoStatus) : bool := truthy (videoUrl v).

(** [{videoStatus.error && (<Alert>...)}]. *)
Definition alert_shown (v : VideoStatus) : bool :=
  match vs_error v with
  | Some m => negb (String.eqb m "")
  | None => false
  end.

(** What [downloadVideo] does to the document and to [window.URL]. *)
Inductive DomEvent (Blob : Type) : Type :=
| DomCreateObjectURL (blob : Blob) (url : string)
| DomAppendChild (href download : string)   (* document.body.appendChild(a) *)
| DomClick (href download : string)         (* a.click() *)
| DomRemoveChild                            (* document.body.removeChild(a) *)
| DomRevokeObjectURL (url : string).
Arguments DomCreateObjectURL {Blob} blob url.
Arguments DomAppendChild {Blob} href download.
Arguments DomClick {Blob} href download.
Arguments DomRemoveChild {Blob}.
Arguments DomRevokeObjectURL {Blob} url.

Section Download.

(** The browser's part: the type of blobs, what [response.blob()]
    settles to, and the URL that [createObjectURL] hands out. *)
Variable Blob : Type.
Variable blob_of : Response -> Thrown + Blob.
Variable createObjectURL : Blob -> string.

(** The page together with the document. *)
Record Browser : Type := mkBrowser {
  page : World;
  dom : list (DomEvent Blob)
}.

(** [downloadVideo()]. *)
Definition downloadVideo (b : Browser) : Completion unit * Browser :=
  let videoStatus := videoStatus (page b) in
  if negb (truthy (videoUrl videoStatus)) then (Normal tt, b)
  else
    let failed_download (w : World) : Completion unit * Browser :=
      (* catch (error) { addLog("error", ...) } *)
      let (r, w') := addLog error "Failed to download video" w in
      (r, mkBrowser w' (dom b)) in
    match (addLog info "Starting video download...";;
           fetch (js_to_string (videoUrl videoStatus)) None) (page b) with
    | (Abrupt _, w) => failed_download w
    | (Normal response, w) =>
        match blob_of response with
        | inl _ => failed_download w
        | inr blob =>
            let url := createObjectURL blob in
            let href := url in
            let download :=
              "heygen-video-"
              ++ js_to_string (js_or (videoId videoStatus) (Some (JNum (clock w))))
              ++ ".mp4" in
            let (r, w') := addLog success "Video downloaded successfully!" w in
            (r, mkBrowser w'
                  (dom b ++ [DomCreateObjectURL blob url; DomAppendChild href download;
                             DomClick href download; DomRemoveChild;
                             DomRevokeObjectURL url]))
        end
    end.

End Download.
Arguments page {Blob} b.
Arguments dom {Blob} b.
Arguments mkBrowser {Blob} page dom.

(** ** Vocabulary and samples for the routes and the rest of the page *)

(** A handler result whose reply, if any, was built by
    [NextResponse.json]. *)
Definition built (rt : Runtime) (h : Handled) : Prop :=
  (exists e, fst h = inl e) \/ (exists body s, fst h = NextResponse_json rt body s).

(** A reply that [Response.json] can build. *)
Definition sendable (r : Reply) : Prop :=
  200 <= reply_status r <= 599 /\ null_body_status (reply_status r) = false.

Definition dq : string := String (ascii_of_nat 34) "".

(** The text [{"error":{"message":"quota exceeded"}}]. *)
Definition quota_text : string :=
  "{" ++ dq ++ "error" ++ dq ++ ":{" ++ dq ++ "message" ++ dq ++ ":"
  ++ dq ++ "quota exceeded" ++ dq ++ "}}".

(** The text [{"data":{"status":"processing"}}]. *)
Definition processing_text : string :=
  "{" ++ dq ++ "data" ++ dq ++ ":{" ++ dq ++ "status" ++ dq ++ ":"
  ++ dq ++ "processing" ++ dq ++ "}}".

(** [JSON.parse] on the bodies used in the samples; any other text is
    taken as malformed. *)
Definition sample_parse (text : string) : Thrown + JSON :=
  if String.eqb text quota_text then
    inr (JObj [("error", JObj [("message", JStr "quota exceeded")])])
  else if String.eqb text processing_text then
    inr (JObj [("data", JObj [("status", JStr "processing")])])
  else if String.eqb text "null" then inr JNull
  else inl (ErrorObject "Unexpected token").

Definition sample_runtime : Runtime :=
  mkRuntime sample_parse (fun _ => "Invalid response status code").

Definition json_type : option string := Some "application/json; charset=utf-8".

(** An upstream that answers every request with the same response. *)
Definition always (res : UpstreamResponse) : UpstreamRequest -> UpstreamOutcome :=
  fun _ => UpResponded res.

(** The body of the reply to an upstream answer [data] with status [s]. *)
Definition forwarded_body (s : Z) (data : JSON) (generic : string) : JSON :=
  if status_ok s then data
  else JObj [("error", if truthy (prop data "error")
                       then match prop data "error" with Some e => e | None => JNull end
                       else JObj [("message", JStr generic)])].

(** The five shapes of the status record. *)
Definition consistent (v : VideoStatus) : Prop :=
  match status v with
  | idle => v = status_only idle 0
  | generating => v = status_only generating 10
  | processing =>
      truthy (videoId v) = true /\ videoUrl v = None /\ vs_error v = None /\
      30 <= progress v <= 90
  | completed =>
      truthy (videoId v) = true /\ truthy (videoUrl v) = true /\ vs_error v = None /\
      progress v = 100
  | failed =>
      videoId v = None /\ videoUrl v = None /\ vs_error v <> None /\ progress v = 0
  end.

(** The same shapes once a progress update may have landed on the
    record: the fields of the shape of its status, with the progress of
    that shape or one between 30 and 90. *)
Definition consistent_but_progress (v : VideoStatus) : Prop :=
  match status v with
  | idle =>
      videoId v = None /\ videoUrl v = None /\ vs_error v = None /\
      (progress v = 0 \/ 30 <= progress v <= 90)
  | generating =>
      videoId v = None /\ videoUrl v = None /\ vs_error v = None /\
      (progress v = 10 \/ 30 <= progress v <= 90)
  | processing =>
      truthy (videoId v) = true /\ videoUrl v = None /\ vs_error v = None /\
      30 <= progress v <= 90
  | completed =>
      truthy (videoId v) = true /\ truthy (videoUrl v) = true /\ vs_error v = None /\
      (progress v = 100 \/ 30 <= progress v <= 90)
  | failed =>
      videoId v = None /\ videoUrl v = None /\ vs_error v <> None /\
      (progress v = 0 \/ 30 <= progress v <= 90)
  end.

(** The records written by [setVideoStatus(value)], oldest first. *)
Definition literal_writes (t : list Event) : list VideoStatus :=
  flat_map (fun e => match e with EvSetVideoStatus v => [v] | _ => [] end) t.

(** A property of the status record that each kind of update
    establishes. *)
Definition kept (P : VideoStatus -> Prop) : Prop :=
  P (status_only idle 0) /\
  P (status_only generating 10) /\
  (forall id p, truthy id = true -> 30 <= p <= 90 ->
                P (mkVideoStatus processing id None p None)) /\
  (forall id url, truthy id = true -> truthy url = true ->
                  P (mkVideoStatus completed id url 100 None)) /\
  (forall m, P (failed_with m)).

(** What the page shows of a status record. *)
Definition rendering (v : VideoStatus) : Prop :=
  (player_shown v = true <-> status v = completed) /\
  (alert_shown v = true -> status v = failed) /\
  (status v = failed -> vs_error v <> None) /\
  (getStatusColor v = "bg-blue-500" <-> generate_disabled v = true).


(** The network calls in a trace, oldest first. *)
Definition fetched (t : list Event) : list (string * option JSON) :=
  flat_map (fun e => match e with EvFetch url init => [(url, init)] | _ => [] end) t.

(** How the newest log entry tells the outcome [v] of an attempt. *)
Definition tells (entry : LogEntry) (v : VideoStatus) : Prop :=
  (status v = completed /\ type entry = success) \/
  (status v = failed /\ type entry = error /\
   exists m, vs_error v = Some m /\
     (message entry = m \/
      message entry = "Generation failed: " ++ m \/
      (m = "Video generation timed out" /\
       message entry = "Video generation timed out after maximum attempts"))).

(** A browser whose blobs are the responses themselves. *)
Definition sample_browser (w : World) : Browser Response := mkBrowser w [].
Definition sample_blob_of (r : Response) : Thrown + Response := inr r.
Definition sample_object_url (_ : Response) : string := "blob:1".

(** An [error.message] that is a non-empty string. *)
Definition carries_message (body : JSON) (m : string) : Prop :=
  (prop body "error")?."message" = Some (JStr m) /\ m <> "".

(** * Properties of the handlers *)

(** The loop, unfolded once. *)
Lemma poll_while_step videoId a w :
  poll_while videoId a w =
  if a <? maxAttempts then
    match poll_attempt videoId a w with
    | (Normal Next, w') => poll_while videoId (a + 1) w'
    | r => r
    end
  else (Normal Next, w).
Proof.
  rewrite poll_while_equation_1.
  destruct (Z_lt_dec a maxAttempts) as [Hlt | Hge]; cbn.
  - apply Z.ltb_lt in Hlt. rewrite Hlt. destruct (poll_attempt videoId a w) as [[[]|] ?]; reflexivity.
  - apply Z.ltb_nlt in Hge. rewrite Hge. reflexivity.
Qed.

(** Projections of an updated world. *)
Ltac world_simpl :=
  cbn [trace videoStatus fetches network prompt videoRef locale_time logs clock
       emit set_videoStatus set_logs set_videoRef set_prompt count_fetch advance_clock
       fst snd].

(** One evaluation step of a handler, keeping the JavaScript operators
    and the arithmetic folded. *)
Ltac js_step :=
  cbn -[String.append string_of_Z Z.min Z.add Z.mul Z.of_nat
        truthy js_or new_Error strict_eq_str opt_chain js_to_string] in *.

Lemma new_Error_or reason generic :
  new_Error (js_or reason (Some (JStr generic))) =
  ErrorObject (if truthy reason then js_to_string reason else generic).
Proof.
  unfold js_or. destruct reason as [j|]; [destruct (truthy (Some j))|]; reflexivity.
Qed.

Lemma strict_eq_str_true v lit : strict_eq_str v lit = true -> v = Some (JStr lit).
Proof.
  destruct v as [[]|]; try discriminate. cbn. intros H.
  apply String.eqb_eq in H. now subst.
Qed.

(** A pass that observes "processing". *)
Lemma poll_attempt_processing videoId a w :
  still_processing (reply w 0) = true ->
  exists w',
    poll_attempt videoId a w = (Normal Next, w') /\
    trace w' = (trace w ++ processing_events videoId (videoStatus w) a)%list /\
    videoStatus w' = with_progress (videoStatus w) (displayed_progress a) /\
    fetches w' = S (fetches w) /\
    frame w w'.
Proof.
  unfold reply, still_processing, reply_data. rewrite Nat.add_0_r.
  intros H.
  destruct (network w (fetches w)) as [e | [[] [e | v]]] eqn:E; try discriminate.
  unfold poll_attempt, poll_try, try_catch, bind, fetch, addLog, modify.
  cbn [network fetches set_logs]. rewrite E.
  destruct v; try discriminate; js_step;
    apply andb_true_iff in H; destruct H as [H1 H2];
    apply negb_true_iff in H1, H2; rewrite H1, H2; js_step.
  all: eexists; split; [reflexivity|].
  all: unfold processing_events, displayed_progress, frame; world_simpl.
  all: rewrite <- !app_assoc; cbn [app].
  all: repeat split; try reflexivity.
  all: eexists (_ :: _ :: nil); reflexivity.
Qed.

(** A pass that observes anything else: it returns from the function. *)
Lemma poll_attempt_terminal videoId a w :
  still_processing (reply w 0) = false ->
  exists w' v,
    poll_attempt videoId a w = (Normal Return, w') /\
    trace w' = (trace w ++ terminal_events videoId v)%list /\
    videoStatus w' = v /\
    fetches w' = S (fetches w) /\
    frame w w' /\
    terminal_spec videoId (reply w 0) v.
Proof.
  unfold terminal_spec, reply, still_processing, reports, result_url, failure_reason,
    check_failed, reply_data.
  rewrite Nat.add_0_r. intros H.
  unfold poll_attempt, poll_try, try_catch, bind, fetch, addLog, modify.
  cbn [network fetches set_logs].
  destruct (network w (fetches w)) as [e | [o [e | v]]] eqn:E;
    [ | destruct o | destruct o; destruct v ]; js_step;
    repeat match goal with
      | |- context [if strict_eq_str ?x ?l then _ else _] =>
          destruct (strict_eq_str x l) eqn:?; js_step
      | |- context [if negb (truthy ?x) then _ else _] =>
          destruct (truthy x) eqn:?; js_step
      end;
    try discriminate;
    rewrite ?new_Error_or; js_step.
  all: do 2 eexists; split; [reflexivity|].
  all: unfold terminal_events, frame, failed_with; world_simpl.
  all: rewrite <- ?app_assoc; cbn [app status].
  all: repeat match goal with
         | |- _ /\ _ => split
         | |- _ = _ => reflexivity
         | |- exists new, _ = (new ++ _)%list => eexists (_ :: _ :: nil); reflexivity
         | |- forall _, _ => intro
         | H : false = true |- _ => discriminate H
         | H : true = false |- _ => discriminate H
         | H : Rejected _ = Responded _ |- _ => discriminate H
         | H : Responded _ = Rejected _ |- _ => discriminate H
         | H : Rejected _ = Rejected _ |- _ => injection H as <-
         | H : Responded _ = Responded _ |- _ => inversion H; subst; clear H
         | H : ?x <> ?x |- _ => now elim H
         | H1 : strict_eq_str ?x "completed" = true,
           H2 : strict_eq_str ?x "failed" = true |- _ =>
             exfalso; apply strict_eq_str_true in H1, H2; congruence
         | |- _ \/ _ => first [ left; repeat split; reflexivity | right; eexists; reflexivity ]
         end.
Qed.

(** Splits a conjunction of [n + 1] parts. *)
Ltac split_all n :=
  match n with
  | O => idtac
  | S ?m => split; [ | split_all m ]
  end.

Lemma frame_refl w : frame w w.
Proof. unfold frame. repeat split. now exists []. Qed.

Lemma frame_trans w1 w2 w3 : frame w1 w2 -> frame w2 w3 -> frame w1 w3.
Proof.
  unfold frame. intros (N1 & P1 & R1 & L1 & new1 & G1) (N2 & P2 & R2 & L2 & new2 & G2).
  repeat split; try congruence.
  exists (new2 ++ new1)%list. rewrite G2, G1. apply app_assoc.
Qed.

Lemma with_progress_self v : with_progress v (progress v) = v.
Proof. now destruct v. Qed.

Lemma processing_events_with_progress videoId v p a :
  processing_events videoId (with_progress v p) a = processing_events videoId v a.
Proof. reflexivity. Qed.

Lemma processing_run_with_progress videoId v p k :
  forall a, processing_run videoId (with_progress v p) a k = processing_run videoId v a k.
Proof.
  induction k as [|k IH]; intros a; cbn [processing_run]; [reflexivity|].
  now rewrite IH, processing_events_with_progress.
Qed.

(** [k] passes in a row that observe "processing". *)
Lemma poll_while_processing videoId k :
  forall a w,
    a + Z.of_nat k <= maxAttempts ->
    (forall i, (i < k)%nat -> still_processing (reply w i) = true) ->
    exists w',
      poll_while videoId a w = poll_while videoId (a + Z.of_nat k) w' /\
      trace w' = (trace w ++ processing_run videoId (videoStatus w) a k)%list /\
      videoStatus w' = with_progress (videoStatus w) (progress (videoStatus w')) /\
      fetches w' = (fetches w + k)%nat /\
      frame w w'.
Proof.
  induction k as [|k IH]; intros a w Hk Hp.
  - exists w. cbn [processing_run Z.of_nat].
    rewrite Z.add_0_r, app_nil_r, Nat.add_0_r, with_progress_self.
    split_all 4%nat; try reflexivity. apply frame_refl.
  - destruct (poll_attempt_processing videoId a w) as (w1 & Hrun & Ht & Hv & Hf & Hfr).
    { apply Hp. lia. }
    destruct (IH (a + 1) w1) as (w2 & Hrun2 & Ht2 & Hv2 & Hf2 & Hfr2).
    { lia. }
    { intros i Hi. unfold reply. rewrite Hf. destruct Hfr as (-> & _).
      replace (S (fetches w) + i)%nat with (fetches w + S i)%nat by lia.
      apply Hp. lia. }
    exists w2. split_all 4%nat.
    + rewrite poll_while_step.
      replace (a <? maxAttempts) with true by (symmetry; apply Z.ltb_lt; lia).
      rewrite Hrun, Hrun2. f_equal. lia.
    + rewrite Ht2, Ht, Hv, processing_run_with_progress.
      cbn [processing_run]. now rewrite <- app_assoc.
    + rewrite Hv2 at 1. rewrite Hv. reflexivity.
    + rewrite Hf2, Hf. lia.
    + eapply frame_trans; eassumption.
Qed.

(** Every run of replies has a first one that does not report
    "processing", or 100 that do. *)
Lemma first_terminal (f : nat -> bool) (bound : nat) :
  exists n, (n <= bound)%nat /\ (forall i, (i < n)%nat -> f i = true) /\
            ((n < bound)%nat -> f n = false).
Proof.
  induction bound as [|b (n & Hn & Hpre & Hstop)].
  - exists O. repeat split; intros; lia.
  - destruct (Nat.eq_dec n b) as [-> | Hne].
    + destruct (f b) eqn:Fb.
      * exists (S b). repeat split; try lia.
        intros i Hi. destruct (Nat.eq_dec i b) as [-> | ]; [assumption | apply Hpre; lia].
      * exists b. repeat split; auto.
    + exists n. repeat split; auto. intros _. apply Hstop. lia.
Qed.

(** A whole [pollVideoStatus] run that ends on its [n]-th reply. *)
Lemma poll_run_terminal videoId n w :
  (n < 100)%nat ->
  (forall i, (i < n)%nat -> still_processing (reply w i) = true) ->
  still_processing (reply w n) = false ->
  exists w' v,
    pollVideoStatus videoId w = (Normal tt, w') /\
    trace w' = (trace w ++ processing_run videoId (videoStatus w) 0 n
                        ++ terminal_events videoId v)%list /\
    videoStatus w' = v /\
    fetches w' = (fetches w + n + 1)%nat /\
    frame w w' /\
    terminal_spec videoId (reply w n) v.
Proof.
  intros Hn Hp Ht.
  destruct (poll_while_processing videoId n 0 w) as (w1 & Hrun & Htr & Hv & Hf & Hfr);
    [unfold maxAttempts; lia | assumption |].
  assert (Hr : reply w1 0 = reply w n).
  { unfold reply. destruct Hfr as (-> & _). now rewrite Hf, Nat.add_0_r. }
  destruct (poll_attempt_terminal videoId (0 + Z.of_nat n) w1) as (w2 & v & Hrun2 & Htr2 & Hv2 & Hf2 & Hfr2 & Hspec).
  { now rewrite Hr. }
  exists w2, v. split_all 5%nat.
  - unfold pollVideoStatus, bind. rewrite Hrun, poll_while_step.
    replace (0 + Z.of_nat n <? maxAttempts) with true
      by (symmetry; apply Z.ltb_lt; unfold maxAttempts; lia).
    now rewrite Hrun2.
  - rewrite Htr2, Htr. now rewrite <- app_assoc.
  - assumption.
  - rewrite Hf2, Hf. lia.
  - eapply frame_trans; eassumption.
  - now rewrite <- Hr.
Qed.

(** A whole run of 100 "processing" replies. *)
Lemma poll_run_timeout videoId w :
  (forall i, (i < 100)%nat -> still_processing (reply w i) = true) ->
  exists w',
    pollVideoStatus videoId w = (Normal tt, w') /\
    trace w' = (trace w ++ processing_run videoId (videoStatus w) 0 100
                        ++ [EvSetVideoStatus timeout_status])%list /\
    videoStatus w' = timeout_status /\
    fetches w' = (fetches w + 100)%nat /\
    frame w w'.
Proof.
  intros Hp.
  destruct (poll_while_processing videoId 100 0 w) as (w1 & Hrun & Htr & Hv & Hf & Hfr);
    [unfold maxAttempts; lia | assumption |].
  eexists. split.
  - unfold pollVideoStatus, bind. rewrite Hrun, poll_while_step.
    replace (0 + Z.of_nat 100 <? maxAttempts) with false by reflexivity.
    reflexivity.
  - unfold addLog, modify, timeout_status, failed_with. world_simpl.
    rewrite Htr, <- app_assoc. split_all 3%nat; try assumption; try reflexivity.
    eapply frame_trans; [eassumption|].
    unfold frame; world_simpl. repeat split. now eexists [_].
Qed.

Lemma since_app w w' delta : trace w' = (trace w ++ delta)%list -> since w w' = delta.
Proof.
  unfold since. intros ->. rewrite skipn_app, skipn_all, Nat.sub_diag. reflexivity.
Qed.

Lemma progress_calls_app t1 t2 :
  progress_calls (t1 ++ t2) = (progress_calls t1 ++ progress_calls t2)%list.
Proof. apply flat_map_app. Qed.

Lemma statuses_app t1 t2 : statuses (t1 ++ t2) = (statuses t1 ++ statuses t2)%list.
Proof. apply flat_map_app. Qed.

Lemma fetch_count_app t1 t2 : fetch_count (t1 ++ t2) = (fetch_count t1 + fetch_count t2)%nat.
Proof. unfold fetch_count. now rewrite filter_app, length_app. Qed.

Lemma progress_calls_processing_run videoId v k :
  forall a, progress_calls (processing_run videoId v a k) =
            map (fun i => displayed_progress (a + Z.of_nat i)) (seq 0 k).
Proof.
  induction k as [|k IH]; intros a; [reflexivity|].
  cbn [processing_run]. rewrite progress_calls_app, IH.
  cbn [seq map]. rewrite <- seq_shift, map_map, Z.add_0_r. cbn [progress_calls processing_events flat_map app].
  f_equal. apply map_ext. intros i. f_equal. lia.
Qed.

Lemma statuses_processing_run videoId v k :
  forall a, statuses (processing_run videoId v a k) =
            map (fun i => with_progress v (displayed_progress (a + Z.of_nat i))) (seq 0 k).
Proof.
  induction k as [|k IH]; intros a; [reflexivity|].
  cbn [processing_run]. rewrite statuses_app, IH.
  cbn [seq map]. rewrite <- seq_shift, map_map, Z.add_0_r. cbn [statuses processing_events flat_map app].
  f_equal. apply map_ext. intros i. do 2 f_equal. lia.
Qed.

Lemma fetch_count_processing_run videoId v k :
  forall a, fetch_count (processing_run videoId v a k) = k.
Proof.
  induction k as [|k IH]; intros a; [reflexivity|].
  cbn [processing_run]. rewrite fetch_count_app, IH. reflexivity.
Qed.

Lemma reports_not_processing lit r :
  lit = "completed" \/ lit = "failed" -> reports lit r = true -> still_processing r = false.
Proof.
  unfold reports, still_processing. destruct (reply_data r) as [d|]; [|reflexivity].
  intros [-> | ->] ->; [reflexivity | apply andb_false_r].
Qed.

Lemma check_failed_not_processing r : check_failed r = true -> still_processing r = false.
Proof.
  unfold check_failed, still_processing, reply_data.
  destruct r as [e | [[] b]]; try reflexivity. discriminate.
Qed.

(** The hypothesis on the first [k] replies of a sample network. *)
Tactic Notation "first_replies" integer(k) :=
  let i := fresh "i" in let Hi := fresh "Hi" in
  intros i Hi; do k (destruct i as [|i]; [reflexivity|]); exfalso; lia.

(** The same for [generateVideo], which ends in a call of
    [pollVideoStatus]. *)
Ltac js_step' :=
  cbn -[String.append string_of_Z Z.min Z.add Z.mul Z.of_nat
        truthy js_or new_Error strict_eq_str opt_chain js_to_string
        pollVideoStatus payload] in *.

Lemma generate_try_accepted prompt w :
  truthy (submitted_id (reply w 0)) = true ->
  let videoId := submitted_id (reply w 0) in
  let started := mkVideoStatus processing videoId None 30 None in
  exists w1,
    generate_try prompt w = pollVideoStatus videoId w1 /\
    trace w1 = (trace w ++ generate_events prompt ++ [EvSetVideoStatus started])%list /\
    videoStatus w1 = started /\
    fetches w1 = S (fetches w) /\
    frame w w1.
Proof.
  unfold reply, submitted_id. rewrite Nat.add_0_r. intros H. cbv zeta.
  unfold generate_try, bind, fetch, addLog, modify.
  cbn [network fetches set_logs].
  destruct (network w (fetches w)) as [e | [[] [e | v]]] eqn:E; try discriminate H.
  destruct v; try discriminate H. js_step'.
  rewrite H. js_step'.
  destruct (assoc "data" fields) as [[]|] eqn:D; try discriminate H. js_step'.
  eexists. split; [reflexivity|].
  unfold generate_events, frame. world_simpl. rewrite <- ?app_assoc. cbn [app].
  split_all 3%nat; try reflexivity.
  split_all 4%nat; try reflexivity.
  eexists (_ :: _ :: nil); reflexivity.
Qed.

Lemma generate_try_refused prompt w :
  truthy (submitted_id (reply w 0)) = false ->
  exists e w1,
    generate_try prompt w = (Abrupt e, w1) /\
    trace w1 = (trace w ++ generate_events prompt)%list /\
    videoStatus w1 = videoStatus w /\
    fetches w1 = S (fetches w) /\
    frame w w1.
Proof.
  unfold reply, submitted_id. rewrite Nat.add_0_r. intros H.
  unfold generate_try, bind, fetch, addLog, modify.
  cbn [network fetches set_logs].
  destruct (network w (fetches w)) as [e | [o [e | v]]] eqn:E;
    [ | destruct o | destruct o; destruct v ]; js_step';
    rewrite ?H; js_step'.
  all: do 2 eexists; split; [reflexivity|].
  all: unfold generate_events, frame; world_simpl.
  all: split_all 3%nat; try reflexivity.
  all: split_all 4%nat; try reflexivity.
  all: eexists (_ :: nil); reflexivity.
Qed.

(** Every run of [pollVideoStatus] returns, after at most 100 passes. *)
Lemma poll_run_any videoId w :
  exists w' n final tail,
    (n <= 100)%nat /\
    pollVideoStatus videoId w = (Normal tt, w') /\
    trace w' = (trace w ++ processing_run videoId (videoStatus w) 0 n ++ tail)%list /\
    closing videoId final tail /\
    final_shape videoId final /\
    videoStatus w' = final /\
    frame w w'.
Proof.
  destruct (first_terminal (fun i => still_processing (reply w i)) 100)
    as (n & Hn & Hp & Hstop).
  destruct (Nat.eq_dec n 100) as [-> | Hne].
  - destruct (poll_run_timeout videoId w Hp) as (w' & Hrun & Htr & Hv & _ & Hfr).
    exists w', 100%nat, timeout_status, [EvSetVideoStatus timeout_status].
    split_all 6%nat; try assumption; try reflexivity.
    + right. now split.
    + right. now exists "Video generation timed out".
  - destruct (poll_run_terminal videoId n w) as (w' & v & Hrun & Htr & Hv & _ & Hfr & Hspec);
      [lia | assumption | apply Hstop; lia |].
    exists w', n, v, (terminal_events videoId v).
    split_all 6%nat; try assumption; try reflexivity.
    + now left.
    + destruct Hspec as ([(_ & Hu & ->) | (m & ->)] & _).
      * left. eexists. split; [exact Hu | reflexivity].
      * right. now exists m.
Qed.

Lemma prompt_checks p :
  prompt_accepted p ->
  String.eqb (trim p) "" = false /\ (Z.of_nat (String.length p) >? 1500) = false.
Proof.
  intros [Ht Hl]. split.
  - destruct (trim p); [cbn in Ht; lia | reflexivity].
  - rewrite Z.gtb_ltb. apply Z.ltb_ge. lia.
Qed.

Lemma generate_run w :
  prompt_accepted (prompt w) ->
  exists w' tail,
    generateVideo w = (Normal tt, w') /\
    trace w' = (trace w ++ EvSetVideoStatus (status_only generating 10)
                        :: generate_events (prompt w) ++ tail)%list /\
    attempt_tail w tail (videoStatus w') /\
    frame w w'.
Proof.
  intros Hok. destruct (prompt_checks _ Hok) as [Htrim Hlen].
  unfold generateVideo, bind, gets. rewrite Htrim, Hlen.
  unfold try_catch, setVideoStatus, addLog, modify.
  set (w0 := set_logs _ (emit _ (set_videoStatus _ w))).
  assert (Hr : reply w0 0 = reply w 0) by reflexivity.
  assert (Hfr0 : frame w w0).
  { unfold frame, w0; world_simpl. split_all 4%nat; try reflexivity. now eexists [_]. }
  destruct (truthy (submitted_id (reply w 0))) eqn:Hid.
  - destruct (generate_try_accepted (prompt w) w0) as (w1 & Hrun & Htr & Hv & Hf & Hfr1);
      [now rewrite Hr|].
    rewrite Hr in *.
    destruct (poll_run_any (submitted_id (reply w 0)) w1)
      as (w' & n & final & tail & Hn & Hrun' & Htr' & Hclose & Hshape & Hv' & Hfr').
    rewrite Hrun, Hrun'. do 2 eexists. split_all 3%nat; [reflexivity | | | ].
    + rewrite Htr', Htr, Hv. unfold w0; world_simpl.
      rewrite <- !app_assoc. cbn [app]. reflexivity.
    + rewrite Hv'. now apply tail_polled.
    + eapply frame_trans; [|eassumption]. eapply frame_trans; eassumption.
  - destruct (generate_try_refused (prompt w) w0) as (e & w1 & Hrun & Htr & Hv & Hf & Hfr1);
      [now rewrite Hr|].
    rewrite Hrun. do 2 eexists. split_all 3%nat; [reflexivity | | | ].
    + world_simpl. rewrite Htr. unfold w0; world_simpl.
      rewrite <- !app_assoc. cbn [app]. reflexivity.
    + world_simpl. now apply tail_refused.
    + eapply frame_trans; [eassumption|]. eapply frame_trans; [eassumption|].
      unfold frame; world_simpl. split_all 4%nat; try reflexivity. now eexists [_].
Qed.

Lemma generate_rejected w :
  (String.length (trim (prompt w)) = 0 \/ String.length (prompt w) > 1500)%nat ->
  exists entry,
    generateVideo w = (Normal tt, set_logs (entry :: logs w) w) /\ type entry = error.
Proof.
  intros Hbad. unfold generateVideo, bind, gets, addLog, modify.
  destruct (String.eqb_spec (trim (prompt w)) "") as [Hempty | Hfull].
  - eexists. split; reflexivity.
  - destruct Hbad as [Hzero | Hlong].
    + destruct (trim (prompt w)); [contradiction | discriminate Hzero].
    + replace (Z.of_nat (String.length (prompt w)) >? 1500) with true
        by (symmetry; rewrite Z.gtb_ltb; apply Z.ltb_lt; lia).
      eexists. split; reflexivity.
Qed.

Lemma since_self w f : trace (f w) = trace w -> since w (f w) = [].
Proof. unfold since. intros ->. apply skipn_all. Qed.

Lemma statuses_closing videoId final tail :
  closing videoId final tail -> statuses tail = [final].
Proof. intros [-> | [_ ->]]; reflexivity. Qed.

(** The status updates of an attempt, as a list. *)
Lemma attempt_tail_statuses w tail final :
  attempt_tail w tail final ->
  (exists m, final = failed_with m /\ statuses tail = [final]) \/
  (exists videoId n,
     truthy videoId = true /\ final_shape videoId final /\
     let started := mkVideoStatus processing videoId None 30 None in
     statuses tail =
       (started :: map (fun i => with_progress started (displayed_progress (0 + Z.of_nat i)))
                       (seq 0 n) ++ [final])%list).
Proof.
  intros [m Hid | n fin ev videoId started Hid Hn Hclose Hshape].
  - left. now exists m.
  - right. exists videoId, n. split_all 2%nat; try assumption.
    cbn [statuses flat_map app]. fold (statuses (processing_run videoId started 0 n ++ ev)).
    rewrite statuses_app, statuses_processing_run, (statuses_closing _ _ _ Hclose).
    reflexivity.
Qed.

Lemma handle_invariant_final videoId final :
  truthy videoId = true -> final_shape videoId final -> handle_invariant final.
Proof.
  intros Hid [(url & _ & ->) | (m & ->)]; unfold handle_invariant, has_handle; cbn.
  - destruct videoId; [|discriminate Hid]. split; [split; auto|auto].
  - split; [split; [discriminate | intros [H | H]; discriminate H] | discriminate].
Qed.

Lemma handle_invariant_failed m : handle_invariant (failed_with m).
Proof.
  unfold handle_invariant, has_handle; cbn.
  split; [split; [discriminate | intros [H | H]; discriminate H] | discriminate].
Qed.

Lemma handle_invariant_unset s p :
  s = idle \/ s = generating -> handle_invariant (status_only s p).
Proof.
  unfold handle_invariant, has_handle; cbn.
  intros Hs. split; [split; [discriminate | intros [H | H]; destruct Hs; congruence] | discriminate].
Qed.

Lemma handle_invariant_with_progress v p :
  handle_invariant v -> handle_invariant (with_progress v p).
Proof. now destruct v. Qed.

Lemma handle_invariant_started videoId p :
  truthy videoId = true -> handle_invariant (mkVideoStatus processing videoId None p None).
Proof.
  intros Hid. unfold handle_invariant, has_handle; cbn.
  destruct videoId; [|discriminate Hid]. split; [split; auto|auto].
Qed.

(** What one handled action adds to the history. *)
Lemma dispatch_statuses a w :
  exists delta,
    trace (snd (dispatch a w)) = (trace w ++ delta)%list /\
    Forall handle_invariant (statuses delta) /\
    videoStatus (snd (dispatch a w)) = last (statuses delta) (videoStatus w).
Proof.
  destruct a as [text | | ]; cbn [dispatch].
  - exists []. cbn. rewrite app_nil_r. auto.
  - unfold bind, gets. destruct (generate_disabled (videoStatus w)).
    { exists []. cbn. rewrite app_nil_r. auto. }
    destruct (Nat.eq_dec (String.length (trim (prompt w))) 0) as [Hz | Hnz];
      [| destruct (le_gt_dec (String.length (prompt w)) 1500) as [Hle | Hgt]].
    + destruct (generate_rejected w (or_introl Hz)) as (entry & -> & _).
      exists []. cbn. rewrite app_nil_r. auto.
    + destruct (generate_run w) as (w' & tail & -> & Htr & Htail & _); [split; lia|].
      eexists. split; [exact Htr|]. cbn [snd].
      cbn [statuses flat_map generate_events app]. fold (statuses tail).
      destruct (attempt_tail_statuses _ _ _ Htail)
        as [(m & Hf & ->) | (videoId & n & Hid & Hshape & ->)].
      * split.
        -- constructor; [now apply handle_invariant_unset; right|].
           constructor; [|constructor].
           rewrite Hf. apply handle_invariant_failed.
        -- reflexivity.
      * split.
        -- constructor; [now apply handle_invariant_unset; right|].
           constructor; [now apply handle_invariant_started|].
           apply Forall_app. split.
           ++ apply Forall_forall. intros v Hin. apply in_map_iff in Hin.
              destruct Hin as (i & <- & _). now apply handle_invariant_started.
           ++ constructor; [|constructor]. eapply handle_invariant_final; eassumption.
        -- rewrite 2!app_comm_cons, last_last. reflexivity.
    + destruct (generate_rejected w (or_intror Hgt)) as (entry & -> & _).
      exists []. cbn. rewrite app_nil_r. auto.
  - exists [EvSetVideoStatus (status_only idle 0)].
    unfold resetGenerator, bind, gets, setVideoStatus, modify. world_simpl.
    destruct (videoRef w); world_simpl; split_all 2%nat; try reflexivity.
    all: constructor; [|constructor]; now apply handle_invariant_unset; left.
Qed.

Lemma session_statuses acts :
  forall w,
  exists delta,
    trace (session acts w) = (trace w ++ delta)%list /\
    Forall handle_invariant (statuses delta) /\
    videoStatus (session acts w) = last (statuses delta) (videoStatus w).
Proof.
  induction acts as [|a acts IH]; intros w; cbn [session fold_left].
  - exists []. cbn. rewrite app_nil_r. auto.
  - destruct (dispatch_statuses a w) as (d1 & Ht1 & Hi1 & Hv1).
    destruct (IH (snd (dispatch a w))) as (d2 & Ht2 & Hi2 & Hv2).
    exists (d1 ++ d2)%list. split_all 2%nat.
    + unfold session in Ht2. rewrite Ht2, Ht1. now rewrite app_assoc.
    + rewrite statuses_app. apply Forall_app. now split.
    + unfold session in Hv2. rewrite Hv2, Hv1, statuses_app.
      destruct (statuses d2) as [|x l] eqn:Hd2 using rev_ind.
      * now rewrite app_nil_r.
      * now rewrite app_assoc, !last_last.
Qed.

Lemma displayed_progress_range i : 30 <= displayed_progress (0 + Z.of_nat i) <= 90.
Proof. unfold displayed_progress. lia. Qed.

Lemma displayed_progress_sorted n :
  forall s, StronglySorted Z.le (map (fun i => displayed_progress (0 + Z.of_nat i)) (seq s n)).
Proof.
  induction n as [|n IH]; intros s; cbn [seq map]; constructor.
  - apply IH.
  - apply Forall_forall. intros p Hin. apply in_map_iff in Hin.
    destruct Hin as (i & <- & Hi). apply in_seq in Hi.
    unfold displayed_progress. lia.
Qed.

Lemma StronglySorted_snoc l x :
  StronglySorted Z.le l -> Forall (fun y => y <= x) l -> StronglySorted Z.le (l ++ [x]).
Proof.
  induction 1 as [|y l Hs IH Hy]; intros Hall; cbn [app].
  - repeat constructor.
  - inversion Hall as [|? ? Hyx Hrest]; subst. constructor; [now apply IH|].
    apply Forall_app. split; [assumption | now repeat constructor].
Qed.

(** The progress values of the updates that precede the closing one. *)
Lemma polling_progress_sorted videoId n :
  let started := mkVideoStatus processing videoId None 30 None in
  let pre := status_only generating 10 :: started
             :: map (fun i => with_progress started (displayed_progress (0 + Z.of_nat i)))
                    (seq 0 n) in
  StronglySorted Z.le (map progress pre) /\
  Forall (fun v => 0 <= progress v <= 90) pre /\
  Forall (fun v => status v <> failed) pre.
Proof.
  cbv zeta. cbn [map progress status_only]. rewrite map_map. cbn [progress with_progress].
  assert (Hrange : Forall (fun p => 30 <= p <= 90)
                     (map (fun i => displayed_progress (0 + Z.of_nat i)) (seq 0 n))).
  { apply Forall_forall. intros p Hin. apply in_map_iff in Hin.
    destruct Hin as (i & <- & _). apply displayed_progress_range. }
  split_all 2%nat.
  - constructor; [constructor; [apply displayed_progress_sorted|]|].
    + eapply Forall_impl; [|exact Hrange]. cbn. intros; lia.
    + constructor; [lia|]. eapply Forall_impl; [|exact Hrange]. cbn. intros; lia.
  - constructor; [cbn; lia|]. constructor; [cbn; lia|].
    apply Forall_forall. intros v Hin. apply in_map_iff in Hin.
    destruct Hin as (i & <- & _). cbn [progress with_progress].
    pose proof (displayed_progress_range i). lia.
  - constructor; [discriminate|]. constructor; [discriminate|].
    apply Forall_forall. intros v Hin. apply in_map_iff in Hin.
    destruct Hin as (i & <- & _). discriminate.
Qed.

(** ** Sample evaluations *)

Example trim_inner_space : trim "  hello world " = "hello world".
Proof. reflexivity. Qed.

Example trim_blank : trim (String (ascii_of_nat 9) (String (ascii_of_nat 160) " ")) = "".
Proof. reflexivity. Qed.

Example to_string_array :
  to_string (JArr [JNum 1; JNull; JArr [JNum (-2); JStr "x"]; JBool true]) = "1,,-2,x,true".
Proof. reflexivity. Qed.

Example completed_without_url :
  videoStatus (snd (pollVideoStatus sample_id
                      (polling_world (fun _ => completed_without_url_reply)))) =
  failed_with "Video URL not found in response".
Proof. reflexivity. Qed.

Example whole_attempt :
  map (fun v => (status v, progress v))
      (attempt_history (initial_world (replies [created_reply; processing_reply; processing_reply]
                                               completed_reply) 0 (fun _ => "12:00:00"))) =
  [(generating, 10); (processing, 30); (processing, 30); (processing, 32); (completed, 100)].
Proof. reflexivity. Qed.

(** * The claims *)



(** C2, as the specification states it, fails: when the submission is
    refused the attempt writes progress 10 and then progress 0. *)
Lemma progress_drops_on_failure :
  let w := initial_world (fun _ => refused_reply) 0 (fun _ => "12:00:00") in
  map progress (attempt_history w) = [10; 0] /\
  ~ progress_claim_as_stated (attempt_history w).
Proof.
  cbv zeta.
  assert (H : map progress
                (attempt_history (initial_world (fun _ => refused_reply) 0 (fun _ => "12:00:00")))
              = [10; 0]) by reflexivity.
  split; [exact H|].
  intros [_ Hsorted]. rewrite H in Hsorted.
  inversion Hsorted as [|? ? _ Hall]; subst.
  inversion Hall as [|? ? Hle _]; subst. lia.
Qed.

(** C2, amended: every progress value an attempt writes lies in [0,100];
    the values are non-decreasing across the updates of the attempt up
    to the one that enters the failed state, if any; that update is the
    last of the attempt and sets progress to 0. *)
Theorem progress_nondecreasing_until_failure (w : World) :
  let history := attempt_history w in
  Forall (fun v => 0 <= progress v <= 100) history /\
  exists pre closing,
    history = (pre ++ closing)%list /\
    StronglySorted Z.le (map progress pre) /\
    Forall (fun v => status v <> failed) pre /\
    (closing = [] \/ exists m, closing = [mkVideoStatus failed None None 0 (Some m)]).
Proof.
  cbv zeta. unfold attempt_history.
  assert (Hnone : forall entry, generateVideo w = (Normal tt, set_logs (entry :: logs w) w) ->
                  statuses (since w (snd (generateVideo w))) = []).
  { intros entry ->. cbn [snd]. now rewrite (since_self w (set_logs (entry :: logs w))). }
  assert (Hempty : statuses (since w (snd (generateVideo w))) = [] ->
            Forall (fun v => 0 <= progress v <= 100) (statuses (since w (snd (generateVideo w)))) /\
            exists pre closing,
              statuses (since w (snd (generateVideo w))) = (pre ++ closing)%list /\
              StronglySorted Z.le (map progress pre) /\
              Forall (fun v => status v <> failed) pre /\
              (closing = [] \/ exists m, closing = [mkVideoStatus failed None None 0 (Some m)])).
  { intros ->. split; [constructor|]. exists [], []. split_all 3%nat; try constructor; auto. }
  destruct (Nat.eq_dec (String.length (trim (prompt w))) 0) as [Hz | Hnz];
    [| destruct (le_gt_dec (String.length (prompt w)) 1500) as [Hle | Hgt]].
  - destruct (generate_rejected w (or_introl Hz)) as (entry & Hrun & _). eauto.
  - destruct (generate_run w) as (w' & tail & -> & Htr & Htail & _); [split; lia|].
    cbn [snd]. rewrite (since_app _ _ _ Htr).
    cbn [statuses flat_map generate_events app]. fold (statuses tail).
    destruct (attempt_tail_statuses _ _ _ Htail)
      as [(m & Hf & ->) | (videoId & n & _ & Hshape & ->)].
    + (* the submission was refused *)
      rewrite Hf. split; [repeat constructor; cbn; lia|].
      exists [status_only generating 10], [failed_with m].
      split_all 3%nat; [reflexivity | repeat constructor | | right; now exists m].
      constructor; [discriminate | constructor].
    + destruct (polling_progress_sorted videoId n) as (Hsorted & Hrange & Hlive).
      cbv zeta in Hsorted, Hrange, Hlive.
      destruct Hshape as [(url & _ & ->) | (m & ->)].
      * (* completed: the whole history is sorted *)
        split.
        -- rewrite 2!app_comm_cons. apply Forall_app. split.
           ++ eapply Forall_impl; [|exact Hrange]. cbn. intros; lia.
           ++ repeat constructor; cbn; lia.
        -- eexists (_ :: _ :: _ ++ [_])%list, []. rewrite app_nil_r.
           split_all 3%nat; [reflexivity | | | now left].
           ++ rewrite 2!app_comm_cons, map_app. apply StronglySorted_snoc; [exact Hsorted|].
              apply Forall_forall. intros p Hin. apply in_map_iff in Hin.
              destruct Hin as (v & <- & Hv). rewrite Forall_forall in Hrange.
              specialize (Hrange v Hv). cbn. lia.
           ++ rewrite 2!app_comm_cons. apply Forall_app. split; [exact Hlive|].
              constructor; [discriminate | constructor].
      * (* failed during polling *)
        split.
        -- rewrite 2!app_comm_cons. apply Forall_app. split.
           ++ eapply Forall_impl; [|exact Hrange]. cbn. intros; lia.
           ++ repeat constructor; cbn; lia.
        -- eexists (_ :: _ :: _)%list, [failed_with m].
           split_all 3%nat; [reflexivity | exact Hsorted | exact Hlive | right; now exists m].
  - destruct (generate_rejected w (or_intror Hgt)) as (entry & Hrun & _). eauto.
Qed.

(** C3, as the specification states it, fails: after an accepted
    submission, a poll that reports "failed" leaves a failed state
    without job identifier. *)
Lemma handle_absent_after_failed_poll :
  let w := session [ClickGenerate]
             (initial_world (replies [created_reply] failed_reply) 0 (fun _ => "12:00:00")) in
  statuses (trace w) =
    [status_only generating 10;
     mkVideoStatus processing sample_id None 30 None;
     mkVideoStatus failed None None 0 (Some "synthesis error")] /\
  handle_invariant_as_stated false (initial_videoStatus :: statuses (trace w)) = false.
Proof. cbv zeta. split; reflexivity. Qed.

(** C3, amended: in every state the page goes through, in any session
    of user actions and for any replies of the network, the job
    identifier is present (and truthy) if and only if the status is
    processing or completed; it is absent in idle, in generating and in
    every failed state.  The progress update keeps this from whatever
    state it is applied to. *)
Theorem handle_present_iff_processing_or_completed
    (net : nat -> FetchOutcome) (now : Z) (fmt : Z -> string) (acts : list Action) :
  let w := session acts (initial_world net now fmt) in
  Forall handle_invariant (initial_videoStatus :: statuses (trace w)) /\
  videoStatus w = last (statuses (trace w)) initial_videoStatus /\
  handle_invariant (videoStatus w) /\
  (forall v p, handle_invariant v -> handle_invariant (with_progress v p)).
Proof.
  cbv zeta.
  destruct (session_statuses acts (initial_world net now fmt)) as (delta & Htr & Hinv & Hlast).
  cbn [trace initial_world app videoStatus] in Htr, Hlast.
  rewrite Htr.
  assert (Hall : Forall handle_invariant (initial_videoStatus :: statuses delta)).
  { constructor; [now apply handle_invariant_unset; left | exact Hinv]. }
  split_all 3%nat; [exact Hall | exact Hlast | | exact handle_invariant_with_progress].
  rewrite Hlast. rewrite Forall_forall in Hall. apply Hall.
  destruct (statuses delta) as [|v l] eqn:Hd; [now left|].
  right. rewrite <- Hd. destruct (exists_last (l := statuses delta)) as (l' & x & ->).
  - rewrite Hd. discriminate.
  - rewrite last_last. apply in_or_app. right. now left.
Qed.


(** C4: when each of the first 100 status queries succeeds and reports a
    state other than completed and failed, [pollVideoStatus] issues
    exactly 100 queries, each followed by the 3000 ms wait, and then sets
    the state to failed with the time-out message. *)
Theorem poll_timeout_after_100_queries (videoId : JSValue) (w : World) :
  (forall i, (i < 100)%nat -> still_processing (reply w i) = true) ->
  let w' := snd (pollVideoStatus videoId w) in
  fst (pollVideoStatus videoId w) = Normal tt /\
  fetch_count (since w w') = 100%nat /\
  fetches w' = (fetches w + 100)%nat /\
  videoStatus w' = mkVideoStatus failed None None 0 (Some "Video generation timed out") /\
  since w w' = (processing_run videoId (videoStatus w) 0 100
                ++ [EvSetVideoStatus (videoStatus w')])%list.
Proof.
  intros Hp. cbv zeta.
  destruct (poll_run_timeout videoId w Hp) as (w' & Hrun & Htr & Hv & Hf & _).
  rewrite Hrun. cbn [fst snd]. rewrite (since_app _ _ _ Htr), Hv.
  split_all 4%nat; try reflexivity; assumption.
Qed.

Lemma poll_timeout_after_100_queries_witness :
  let w := polling_world (fun _ => processing_reply) in
  let w' := snd (pollVideoStatus sample_id w) in
  fetch_count (since w w') = 100%nat /\
  videoStatus w' = mkVideoStatus failed None None 0 (Some "Video generation timed out").
Proof.
  cbv zeta.
  destruct (poll_timeout_after_100_queries sample_id (polling_world (fun _ => processing_reply)))
    as (_ & Hcount & _ & Hfinal & _).
  - intros i _. reflexivity.
  - split; assumption.
Defined.

(** C5: [generateVideo] stops before any network call exactly for the
    prompts whose trimmed length is 0 or whose length exceeds 1500: it
    then only adds an error entry to the log.  Every prompt with trimmed
    length above 0 and length at most 1500 is posted to /api/generate as
    the [input_text] of the request body. *)
Theorem prompt_validation (w : World) :
  let w' := snd (generateVideo w) in
  let p := prompt w in
  ((String.length (trim p) = 0 \/ String.length p > 1500)%nat <->
   fetch_count (since w w') = 0%nat) /\
  ((String.length (trim p) = 0 \/ String.length p > 1500)%nat ->
   since w w' = [] /\ fetches w' = fetches w /\ videoStatus w' = videoStatus w /\
   exists entry, type entry = error /\ logs w' = entry :: logs w) /\
  ((String.length (trim p) > 0 /\ String.length p <= 1500)%nat ->
   exists rest,
     since w w' = EvSetVideoStatus (status_only generating 10)
                  :: EvFetch "/api/generate" (Some (payload p)) :: rest).
Proof.
  cbv zeta.
  assert (Hrej : (String.length (trim (prompt w)) = 0 \/ String.length (prompt w) > 1500)%nat ->
                 since w (snd (generateVideo w)) = [] /\
                 fetches (snd (generateVideo w)) = fetches w /\
                 videoStatus (snd (generateVideo w)) = videoStatus w /\
                 exists entry, type entry = error /\
                               logs (snd (generateVideo w)) = entry :: logs w).
  { intros Hbad. destruct (generate_rejected w Hbad) as (entry & -> & Hty).
    cbn [snd]. split_all 3%nat; try reflexivity.
    - now apply (since_self w (set_logs (entry :: logs w))).
    - now exists entry. }
  assert (Hacc : (String.length (trim (prompt w)) > 0 /\ String.length (prompt w) <= 1500)%nat ->
                 exists rest,
                   since w (snd (generateVideo w)) =
                   EvSetVideoStatus (status_only generating 10)
                   :: EvFetch "/api/generate" (Some (payload (prompt w))) :: rest).
  { intros Hok. destruct (generate_run w Hok) as (w' & tail & -> & Htr & _).
    cbn [snd]. rewrite (since_app _ _ _ Htr). now exists tail. }
  split_all 2%nat; [ | exact Hrej | exact Hacc ].
  split.
  - intros Hbad. destruct (Hrej Hbad) as (-> & _). reflexivity.
  - intros Hnone.
    destruct (Nat.eq_dec (String.length (trim (prompt w))) 0) as [Hz | Hnz]; [now left|].
    destruct (le_gt_dec (String.length (prompt w)) 1500) as [Hle | Hgt]; [|now right].
    destruct Hacc as (rest & Hsince); [lia|].
    rewrite Hsince in Hnone. discriminate Hnone.
Qed.

(** C6: when the first reply that does not report "processing" reports
    "failed", [pollVideoStatus] returns at that reply: the state becomes
    failed with the remote reason [data.error.message] when that is
    truthy, and with "Video generation failed" otherwise; the query that
    observed the failure is the last one. *)
Theorem poll_remote_failure (videoId : JSValue) (w : World) (n : nat) :
  (n < 100)%nat ->
  (forall i, (i < n)%nat -> still_processing (reply w i) = true) ->
  reports "failed" (reply w n) = true ->
  let w' := snd (pollVideoStatus videoId w) in
  let reason := failure_reason (reply w n) in
  fst (pollVideoStatus videoId w) = Normal tt /\
  videoStatus w' =
    mkVideoStatus failed None None 0
      (Some (if truthy reason then js_to_string reason else "Video generation failed")) /\
  (forall m, reason = Some (JStr m) -> m <> "" -> vs_error (videoStatus w') = Some m) /\
  (reason = None -> vs_error (videoStatus w') = Some "Video generation failed") /\
  fetch_count (since w w') = S n /\
  since w w' = (processing_run videoId (videoStatus w) 0 n
                ++ [EvFetch (status_url videoId) None; EvSetVideoStatus (videoStatus w')])%list.
Proof.
  intros Hn Hp Hfail. cbv zeta.
  destruct (poll_run_terminal videoId n w) as (w' & v & Hrun & Htr & Hv & _ & _ & Hspec);
    [assumption | assumption | now apply (reports_not_processing "failed"); [right|] |].
  destruct Hspec as (_ & _ & _ & Hfailed & _). specialize (Hfailed Hfail).
  rewrite Hrun. cbn [fst snd]. rewrite (since_app _ _ _ Htr), Hv.
  split_all 5%nat; try reflexivity.
  - exact Hfailed.
  - intros m Hm Hne. rewrite Hfailed, Hm. cbn.
    destruct (String.eqb_spec m ""); [contradiction | reflexivity].
  - intros Hm. rewrite Hfailed, Hm. reflexivity.
  - rewrite fetch_count_app, fetch_count_processing_run. cbn. lia.
Qed.

Lemma poll_remote_failure_witness :
  let w := polling_world (replies [processing_reply; processing_reply] failed_reply) in
  let w' := snd (pollVideoStatus sample_id w) in
  videoStatus w' = mkVideoStatus failed None None 0 (Some "synthesis error") /\
  fetch_count (since w w') = 3%nat.
Proof.
  cbv zeta.
  destruct (poll_remote_failure sample_id
              (polling_world (replies [processing_reply; processing_reply] failed_reply)) 2)
    as (_ & Hfinal & _ & _ & Hcount & _).
  - lia.
  - first_replies 2.
  - reflexivity.
  - split; [exact Hfinal | exact Hcount].
Defined.

(** C7: when the first reply that does not report "processing" reports
    "completed", the result URL is [data.video_url] when that is truthy,
    else [data.output.video_url] when that is truthy, and the state
    becomes completed with it; when neither is, the state becomes failed
    with "Video URL not found in response". *)
Theorem poll_result_url (videoId : JSValue) (w : World) (n : nat) :
  (n < 100)%nat ->
  (forall i, (i < n)%nat -> still_processing (reply w i) = true) ->
  reports "completed" (reply w n) = true ->
  let w' := snd (pollVideoStatus videoId w) in
  let primary := primary_url (reply w n) in
  let fallback := fallback_url (reply w n) in
  fst (pollVideoStatus videoId w) = Normal tt /\
  (truthy primary = true ->
   videoStatus w' = mkVideoStatus completed videoId primary 100 None) /\
  (truthy primary = false -> truthy fallback = true ->
   videoStatus w' = mkVideoStatus completed videoId fallback 100 None) /\
  (truthy primary = false -> truthy fallback = false ->
   videoStatus w' = mkVideoStatus failed None None 0 (Some "Video URL not found in response")).
Proof.
  intros Hn Hp Hdone. cbv zeta.
  destruct (poll_run_terminal videoId n w) as (w' & v & Hrun & _ & Hv & _ & _ & Hspec);
    [assumption | assumption | now apply (reports_not_processing "completed"); [left|] |].
  destruct Hspec as (_ & Hyes & Hno & _).
  specialize (Hyes Hdone). specialize (Hno Hdone).
  rewrite Hrun. cbn [fst snd]. rewrite Hv.
  assert (Hurl : result_url (reply w n) =
                 js_or (primary_url (reply w n)) (fallback_url (reply w n))).
  { unfold result_url, primary_url, fallback_url.
    destruct (reply_data (reply w n)); reflexivity. }
  rewrite Hurl in Hyes, Hno. unfold js_or in Hyes, Hno.
  split_all 3%nat; [reflexivity | | | ].
  - intros Hprimary. rewrite Hprimary in Hyes. auto.
  - intros Hprimary Hfallback. rewrite Hprimary in Hyes. auto.
  - intros Hprimary Hfallback. rewrite Hprimary in Hno. auto.
Qed.

Lemma poll_result_url_witness :
  let w := polling_world (replies [processing_reply] completed_fallback_reply) in
  let w' := snd (pollVideoStatus sample_id w) in
  videoStatus w' = mkVideoStatus completed sample_id (Some sample_url) 100 None.
Proof.
  cbv zeta.
  destruct (poll_result_url sample_id
              (polling_world (replies [processing_reply] completed_fallback_reply)) 1)
    as (_ & _ & Hfallback & _).
  - lia.
  - first_replies 1.
  - reflexivity.
  - apply Hfallback; reflexivity.
Defined.

(** C8: when the first reply that does not report "processing" is a
    rejected fetch or a response with a non-success HTTP status,
    [pollVideoStatus] returns at once with the state failed and an error
    message; that query is the last one (no wait and no query follows
    it), and every query before it observed "processing". *)
Theorem poll_check_failed (videoId : JSValue) (w : World) (n : nat) :
  (n < 100)%nat ->
  (forall i, (i < n)%nat -> still_processing (reply w i) = true) ->
  check_failed (reply w n) = true ->
  let w' := snd (pollVideoStatus videoId w) in
  fst (pollVideoStatus videoId w) = Normal tt /\
  (exists m, videoStatus w' = mkVideoStatus failed None None 0 (Some m)) /\
  (forall e, reply w n = Rejected e ->
   vs_error (videoStatus w') = Some (error_message e "Status check failed")) /\
  (forall body, reply w n = Responded (mkResponse false (inr body)) -> body <> JNull ->
   vs_error (videoStatus w') =
     Some (if truthy (prop body "error")?."message"
           then js_to_string (prop body "error")?."message"
           else "Failed to check status")) /\
  fetch_count (since w w') = S n /\
  fetches w' = (fetches w + n + 1)%nat /\
  since w w' = (processing_run videoId (videoStatus w) 0 n
                ++ [EvFetch (status_url videoId) None; EvSetVideoStatus (videoStatus w')])%list.
Proof.
  intros Hn Hp Hbad. cbv zeta.
  destruct (poll_run_terminal videoId n w) as (w' & v & Hrun & Htr & Hv & Hf & _ & Hspec);
    [assumption | assumption | now apply check_failed_not_processing |].
  destruct Hspec as (Hshape & _ & _ & _ & Hstatus & Hrej & Hhttp).
  specialize (Hstatus Hbad).
  rewrite Hrun. cbn [fst snd]. rewrite (since_app _ _ _ Htr), Hv.
  split_all 6%nat; try reflexivity.
  - destruct Hshape as [(_ & _ & ->) | (m & ->)]; [discriminate Hstatus | now exists m].
  - intros e He. now rewrite (Hrej e He).
  - intros body Hb Hnn. now rewrite (Hhttp body Hb Hnn).
  - rewrite fetch_count_app, fetch_count_processing_run. cbn. lia.
  - exact Hf.
Qed.

Lemma poll_check_failed_witness :
  let w := polling_world (replies [processing_reply] (Rejected (ErrorObject "Failed to fetch"))) in
  let w' := snd (pollVideoStatus sample_id w) in
  vs_error (videoStatus w') = Some "Failed to fetch" /\
  fetch_count (since w w') = 2%nat.
Proof.
  cbv zeta.
  destruct (poll_check_failed sample_id
              (polling_world (replies [processing_reply] (Rejected (ErrorObject "Failed to fetch")))) 1)
    as (_ & _ & Hrej & _ & Hcount & _).
  - lia.
  - first_replies 1.
  - reflexivity.
  - split; [exact (Hrej _ eq_refl) | exact Hcount].
Defined.

(** C9: from any state, [resetGenerator] leaves the status idle with
    progress 0 and without job identifier, result URL or error, and
    leaves the log empty. *)
Theorem reset_clears_everything (w : World) :
  let w' := snd (resetGenerator w) in
  fst (resetGenerator w) = Normal tt /\
  videoStatus w' = mkVideoStatus idle None None 0 None /\
  status (videoStatus w') = idle /\
  progress (videoStatus w') = 0 /\
  videoId (videoStatus w') = None /\
  videoUrl (videoStatus w') = None /\
  vs_error (videoStatus w') = None /\
  logs w' = [].
Proof.
  cbv zeta. unfold resetGenerator, bind, gets, setVideoStatus, modify.
  world_simpl. destruct (videoRef w); split_all 7%nat; reflexivity.
Qed.

(** C10: with a prompt that passes the checks, the first statement of
    [generateVideo] replaces the whole status record: right after it the
    record is [{ status: "generating", progress: 10 }] with no
    identifier, URL or error, whatever the previous record held, and the
    rest of the handler runs from there; the record the attempt ends in
    holds nothing of the previous one (failed with the new error only, or
    completed with the identifier of this submission); the log is not
    cleared, only extended at the front: the final log is new entries
    followed by all the earlier ones. *)
Theorem generate_replaces_status_keeps_logs (w : World) :
  (String.length (trim (prompt w)) > 0 /\ String.length (prompt w) <= 1500)%nat ->
  let w' := snd (generateVideo w) in
  let w1 := snd (setVideoStatus (status_only generating 10) w) in
  (videoStatus w1 = mkVideoStatus generating None None 10 None /\
   logs w1 = logs w /\
   generateVideo w = generate_started (prompt w) w1) /\
  ((exists m, videoStatus w' = mkVideoStatus failed None None 0 (Some m)) \/
   (exists url, videoStatus w' =
                mkVideoStatus completed (submitted_id (reply w 0)) url 100 None)) /\
  exists rest new,
    since w w' = EvSetVideoStatus (mkVideoStatus generating None None 10 None) :: rest /\
    new <> [] /\
    logs w' = (new ++ logs w)%list.
Proof.
  intros Hok. cbv zeta. split_all 2%nat.
  - split_all 2%nat; [reflexivity | reflexivity |].
    unfold generateVideo, generate_started, bind, gets.
    destruct (prompt_checks _ Hok) as [-> ->]. reflexivity.
  - destruct (generate_run w Hok) as (w' & tail & -> & _ & Htail & _). cbn [snd].
    inversion Htail as [m Hid Ht Hf | n final ev id started Hid Hn Hclose Hshape Ht Hf].
    + left. now exists m.
    + destruct Hshape as [(url & _ & Hfinal) | (m & Hfinal)]; rewrite Hfinal.
      * right. now exists url.
      * left. now exists m.
  - unfold generateVideo, bind, gets.
    destruct (prompt_checks _ Hok) as [-> ->].
    unfold try_catch, setVideoStatus, addLog, modify.
    set (w0 := set_logs _ (emit _ (set_videoStatus _ w))).
    assert (Hlater : forall w1 : World,
               (exists d, trace w1 = (trace w0 ++ d)%list) ->
               (exists l, logs w1 = (l ++ logs w0)%list) ->
               exists rest new,
                 since w w1 = EvSetVideoStatus (mkVideoStatus generating None None 10 None) :: rest /\
                 new <> [] /\ logs w1 = (new ++ logs w)%list).
    { intros w1 (d & Hd) (l & Hl). exists d. eexists (l ++ [_])%list.
      split_all 2%nat.
      - apply since_app. rewrite Hd. unfold w0; world_simpl.
        rewrite <- app_assoc. reflexivity.
      - intros Habs. apply app_eq_nil in Habs. destruct Habs as [_ Habs]. discriminate Habs.
      - rewrite Hl. unfold w0; world_simpl. rewrite <- app_assoc. reflexivity. }
    destruct (truthy (submitted_id (reply w0 0))) eqn:Hid.
    + destruct (generate_try_accepted (prompt w) w0 Hid) as (w1 & Hrun & Htr & _ & _ & Hfr1).
      destruct (poll_run_any (submitted_id (reply w0 0)) w1)
        as (w' & n & final & tail & _ & Hrun' & Htr' & _ & _ & _ & Hfr').
      rewrite Hrun, Hrun'. cbn [snd]. apply Hlater.
      * eexists. rewrite Htr', Htr, <- app_assoc. reflexivity.
      * destruct (frame_trans _ _ _ Hfr1 Hfr') as (_ & _ & _ & _ & Hlogs). exact Hlogs.
    + destruct (generate_try_refused (prompt w) w0 Hid) as (e & w1 & Hrun & Htr & _ & _ & Hfr1).
      rewrite Hrun. cbn [snd]. apply Hlater; world_simpl.
      * eexists. rewrite Htr, <- app_assoc. reflexivity.
      * destruct Hfr1 as (_ & _ & _ & _ & l & Hl). rewrite Hl.
        eexists (_ :: l). reflexivity.
Qed.

(** A new attempt on a page that shows a completed one. *)
Lemma generate_replaces_status_keeps_logs_witness :
  let w := completed_world (fun _ => refused_reply) in
  let w' := snd (generateVideo w) in
  let w1 := snd (setVideoStatus (status_only generating 10) w) in
  videoStatus w = mkVideoStatus completed sample_id (Some sample_url) 100 None /\
  videoStatus w1 = mkVideoStatus generating None None 10 None /\
  videoStatus w' = mkVideoStatus failed None None 0 (Some "quota exceeded") /\
  exists rest new,
    since w w' = EvSetVideoStatus (mkVideoStatus generating None None 10 None) :: rest /\
    new <> [] /\
    logs w' = (new ++ logs w)%list.
Proof.
  cbv zeta.
  destruct (generate_replaces_status_keeps_logs (completed_world (fun _ => refused_reply)))
    as ((Hfirst & _) & _ & Hlogs).
  - vm_compute. split; lia.
  - split_all 3%nat; [reflexivity | exact Hfirst | reflexivity | exact Hlogs].
Defined.

(** * Further properties: the routes, the rest of the page, and both together *)


(** * The proxy routes *)

Lemma NextResponse_json_500 rt body :
  NextResponse_json rt body 500 = inr (mkReply 500 body).
Proof. reflexivity. Qed.

Lemma NextResponse_json_inr rt body s r :
  NextResponse_json rt body s = inr r ->
  r = mkReply s body /\ 200 <= s <= 599 /\ null_body_status s = false.
Proof.
  unfold NextResponse_json.
  destruct ((s <? 200) || (599 <? s) || null_body_status s) eqn:H; [discriminate|].
  intros [= <-]. apply orb_false_iff in H. destruct H as [H Hnull].
  apply orb_false_iff in H. destruct H as [Hlo Hhi].
  apply Z.ltb_ge in Hlo, Hhi. auto.
Qed.

Lemma NextResponse_json_accepts rt body s :
  200 <= s <= 599 -> null_body_status s = false ->
  NextResponse_json rt body s = inr (mkReply s body).
Proof.
  intros [Hlo Hhi] Hnull. unfold NextResponse_json.
  replace (s <? 200) with false by (symmetry; apply Z.ltb_ge; lia).
  replace (599 <? s) with false by (symmetry; apply Z.ltb_ge; lia).
  now rewrite Hnull.
Qed.

Lemma upstream_error_body_cases data generic :
  (data = JNull /\ exists e, upstream_error_body data generic = inl e) \/
  (data <> JNull /\
   upstream_error_body data generic =
     inr (JObj [("error", if truthy (prop data "error") then
                            match prop data "error" with Some e => e | None => JNull end
                          else JObj [("message", JStr generic)])])).
Proof.
  unfold upstream_error_body, js_or.
  destruct data; cbn [member]; try (right; split; [discriminate|]).
  - left. split; [reflexivity | eexists; reflexivity].
  - reflexivity.
  - reflexivity.
  - reflexivity.
  - reflexivity.
  - destruct (truthy (prop (JObj fields) "error")) eqn:T; [|reflexivity].
    destruct (prop (JObj fields) "error"); [reflexivity | discriminate T].
Qed.

Lemma status_GET_try_built rt key videoId upstream :
  built rt (StatusRoute.GET_try rt key videoId upstream).
Proof.
  unfold StatusRoute.GET_try, up_json.
  destruct key as [[|c k]|]; try (right; do 2 eexists; reflexivity).
  destruct (upstream _) as [e | res]; [left; eexists; reflexivity|].
  destruct (_ || _).
  - destruct (up_text res); [left | right; do 2 eexists]; try eexists; reflexivity.
  - destruct (up_text res) as [e | text]; [left; eexists; reflexivity|].
    destruct (JSON_parse rt text) as [e | data]; [left; eexists; reflexivity|].
    destruct (negb _); [|right; do 2 eexists; reflexivity].
    destruct (upstream_error_body _ _); [left | right; do 2 eexists]; try eexists; reflexivity.
Qed.

Lemma unchecked_GET_try_built rt key videoId upstream :
  built rt (StatusRouteUnchecked.GET_try rt key videoId upstream).
Proof.
  unfold StatusRouteUnchecked.GET_try, up_json.
  destruct key as [[|c k]|]; try (right; do 2 eexists; reflexivity).
  destruct (upstream _) as [e | res]; [left; eexists; reflexivity|].
  destruct (up_text res) as [e | text]; [left; eexists; reflexivity|].
  destruct (JSON_parse rt text) as [e | data]; [left; eexists; reflexivity|].
  destruct (negb _); [|right; do 2 eexists; reflexivity].
  destruct (upstream_error_body _ _); [left | right; do 2 eexists]; try eexists; reflexivity.
Qed.

Lemma POST_try_built rt key request_json upstream :
  built rt (GenerateRoute.POST_try rt key request_json upstream).
Proof.
  unfold GenerateRoute.POST_try.
  destruct request_json as [e | body]; [left; eexists; reflexivity|].
  destruct key as [[|c k]|]; try (right; do 2 eexists; reflexivity).
  destruct (upstream _) as [e | res]; [left; eexists; reflexivity|].
  destruct (up_text res) as [e | text]; [left; eexists; reflexivity|].
  destruct (JSON_parse rt text) as [e | data]; [right; do 2 eexists; reflexivity|].
  destruct (negb _); [|right; do 2 eexists; reflexivity].
  destruct (upstream_error_body _ _); [left | right; do 2 eexists]; try eexists; reflexivity.
Qed.

Lemma server_error_replies rt h :
  built rt h ->
  exists r, fst (server_error rt h) = inr r /\ sendable r /\
            snd (server_error rt h) = snd h.
Proof.
  destruct h as [[e | r] calls]; cbn [server_error fst snd].
  - intros _. rewrite NextResponse_json_500. eexists. split; [reflexivity|].
    split; [|reflexivity]. unfold sendable. cbn. split; [lia | reflexivity].
  - intros [(e & He) | (body & s & Hb)]; [discriminate He|]. cbn [fst] in Hb.
    symmetry in Hb. apply NextResponse_json_inr in Hb. destruct Hb as (-> & Hr & Hn).
    eexists. split; [reflexivity|]. split; [|reflexivity]. now split.
Qed.



(** ** Sample server environment *)

(** X1: none of the three route handlers ever rejects: each returns a
    reply whose status lies in 200..599 and admits a body, and issues at
    most one upstream request. *)
Theorem routes_always_reply (rt : Runtime) (key : option string) (videoId : string)
    (request_json : Thrown + JSON) (upstream : UpstreamRequest -> UpstreamOutcome) :
  let replies (h : Handled) :=
    exists r, fst h = inr r /\ 200 <= reply_status r <= 599 /\
              null_body_status (reply_status r) = false /\
              (List.length (snd h) <= 1)%nat in
  replies (StatusRoute.GET rt key videoId upstream) /\
  replies (GenerateRoute.POST rt key request_json upstream) /\
  replies (StatusRouteUnchecked.GET rt key videoId upstream).
Proof.
  cbv zeta. split_all 2%nat.
  - destruct (server_error_replies rt _ (status_GET_try_built rt key videoId upstream))
      as (r & Hr & [Hs Hn] & Hc).
    exists r. unfold StatusRoute.GET. rewrite Hc. split_all 3%nat; try assumption.
    unfold StatusRoute.GET_try. destruct key as [[|? ?]|]; cbn; lia.
  - destruct (server_error_replies rt _ (POST_try_built rt key request_json upstream))
      as (r & Hr & [Hs Hn] & Hc).
    exists r. unfold GenerateRoute.POST. rewrite Hc. split_all 3%nat; try assumption.
    unfold GenerateRoute.POST_try.
    destruct request_json; [cbn; lia|]. destruct key as [[|? ?]|]; cbn; lia.
  - destruct (server_error_replies rt _ (unchecked_GET_try_built rt key videoId upstream))
      as (r & Hr & [Hs Hn] & Hc).
    exists r. unfold StatusRouteUnchecked.GET. rewrite Hc. split_all 3%nat; try assumption.
    unfold StatusRouteUnchecked.GET_try. destruct key as [[|? ?]|]; cbn; lia.
Qed.

(** X2: without an API key (unset or empty) the status routes, and the
    generate route once the request body has parsed, reply 500 with
    "HeyGen API key not configured" and issue no upstream request. *)
Theorem routes_without_key (rt : Runtime) (key : option string) (videoId : string)
    (body : JSON) (upstream : UpstreamRequest -> UpstreamOutcome) :
  js_not key = true ->
  let refusal : Handled :=
    (inr (mkReply 500 (error_body "HeyGen API key not configured")), []) in
  StatusRoute.GET rt key videoId upstream = refusal /\
  GenerateRoute.POST rt key (inr body) upstream = refusal /\
  StatusRouteUnchecked.GET rt key videoId upstream = refusal.
Proof.
  intros Hkey. cbv zeta.
  destruct key as [[|c k]|]; try discriminate Hkey; split_all 2%nat; reflexivity.
Qed.

Lemma routes_without_key_witness :
  StatusRoute.GET sample_runtime (Some "") "v1"
    (always (mkUpstreamResponse 200 json_type (inr processing_text))) =
  (inr (mkReply 500 (error_body "HeyGen API key not configured")), []).
Proof.
  exact (proj1 (routes_without_key sample_runtime (Some "") "v1" JNull
                  (always (mkUpstreamResponse 200 json_type (inr processing_text)))
                  eq_refl)).
Defined.

(** X3: a success reply (2xx) of the status route is always the
    upstream's own answer, unchanged: the key was set, the upstream
    responded with a content type that includes application/json, its
    body parsed, and the reply carries the upstream status and the parsed
    body. *)
Theorem status_route_success_is_upstream (rt : Runtime) (key : option string)
    (videoId : string) (upstream : UpstreamRequest -> UpstreamOutcome) (r : Reply) :
  fst (StatusRoute.GET rt key videoId upstream) = inr r ->
  status_ok (reply_status r) = true ->
  exists k res c data,
    key = Some k /\ k <> "" /\
    upstream (StatusRoute.request k videoId) = UpResponded res /\
    up_content_type res = Some c /\ includes "application/json" c = true /\
    up_json rt res = inr data /\
    r = mkReply (up_status res) data.
Proof.
  unfold StatusRoute.GET, StatusRoute.GET_try, up_json.
  assert (Hdead : forall body calls,
            fst (server_error rt (NextResponse_json rt body 500, calls)) = inr r ->
            status_ok (reply_status r) = true -> False).
  { intros body calls. rewrite NextResponse_json_500. cbn. intros [= <-]. discriminate. }
  assert (Hdead' : forall e calls,
            fst (server_error rt (inl e, calls)) = inr r ->
            status_ok (reply_status r) = true -> False).
  { intros e calls. cbn [server_error]. apply Hdead. }
  destruct key as [[|c0 k]|]; try (intros H1 H2; destruct (Hdead _ _ H1 H2)).
  destruct (upstream _) as [e | res] eqn:U; try (intros H1 H2; destruct (Hdead' _ _ H1 H2)).
  destruct (up_content_type res) as [c|] eqn:C; cbn [js_not orb].
  - destruct (String.eqb c "") eqn:Ce; cbn [orb].
    { destruct (up_text res); intros H1 H2;
        [destruct (Hdead' _ _ H1 H2) | destruct (Hdead _ _ H1 H2)]. }
    destruct (includes "application/json" c) eqn:I; cbn [negb].
    2:{ destruct (up_text res); intros H1 H2;
        [destruct (Hdead' _ _ H1 H2) | destruct (Hdead _ _ H1 H2)]. }
    destruct (up_text res) as [e | text] eqn:T;
      try (intros H1 H2; destruct (Hdead' _ _ H1 H2)).
    destruct (JSON_parse rt text) as [e | data] eqn:P;
      try (intros H1 H2; destruct (Hdead' _ _ H1 H2)).
    destruct (status_ok (up_status res)) eqn:Ok; cbn [negb].
    + destruct (NextResponse_json rt data (up_status res)) as [e | r'] eqn:N;
        try (intros H1 H2; destruct (Hdead' _ _ H1 H2)).
      cbn [server_error fst]. intros [= <-] _.
      apply NextResponse_json_inr in N. destruct N as (-> & _).
      exists (String c0 k), res, c, data. rewrite T.
      split_all 6%nat; try reflexivity; try assumption. discriminate.
    + destruct (upstream_error_body data _) as [e | body];
        try (intros H1 H2; destruct (Hdead' _ _ H1 H2)).
      destruct (NextResponse_json rt body (up_status res)) as [e | r'] eqn:N;
        try (intros H1 H2; destruct (Hdead' _ _ H1 H2)).
      cbn [server_error fst]. intros [= <-] Hok.
      apply NextResponse_json_inr in N. destruct N as (-> & _).
      cbn in Hok. congruence.
  - destruct (up_text res); intros H1 H2;
      [destruct (Hdead' _ _ H1 H2) | destruct (Hdead _ _ H1 H2)].
Qed.

Lemma status_route_success_is_upstream_witness :
  exists k res c data,
    Some "secret" = Some k /\ k <> "" /\
    always (mkUpstreamResponse 200 json_type (inr processing_text))
           (StatusRoute.request k "v1") = UpResponded res /\
    up_content_type res = Some c /\ includes "application/json" c = true /\
    up_json sample_runtime res = inr data /\
    mkReply 200 (JObj [("data", JObj [("status", JStr "processing")])])
    = mkReply (up_status res) data.
Proof.
  apply (status_route_success_is_upstream sample_runtime (Some "secret") "v1"
           (always (mkUpstreamResponse 200 json_type (inr processing_text)))).
  - reflexivity.
  - reflexivity.
Defined.

Lemma includes_nonempty c : includes "application/json" c = true -> String.eqb c "" = false.
Proof. destruct c; [discriminate | reflexivity]. Qed.

Lemma forward_tail rt s data generic :
  200 <= s <= 599 -> null_body_status s = false ->
  (status_ok s = false -> data <> JNull) ->
  (if negb (status_ok s) then
     match upstream_error_body data generic with
     | inl e => inl e
     | inr body => NextResponse_json rt body s
     end
   else NextResponse_json rt data s) = inr (mkReply s (forwarded_body s data generic)).
Proof.
  intros Hs Hn Hdata. unfold forwarded_body.
  destruct (status_ok s); cbn [negb].
  - now apply NextResponse_json_accepts.
  - destruct (upstream_error_body_cases data generic) as [(Hnull & _) | (_ & ->)].
    + now destruct (Hdata eq_refl).
    + now apply NextResponse_json_accepts.
Qed.

Lemma NextResponse_json_refuses rt body s :
  s < 200 \/ 599 < s \/ null_body_status s = true ->
  NextResponse_json rt body s = inl (ErrorObject (response_init_message rt s)).
Proof.
  intros H. unfold NextResponse_json.
  replace ((s <? 200) || (599 <? s) || null_body_status s) with true; [reflexivity|].
  symmetry. destruct H as [H | [H | H]].
  - apply Z.ltb_lt in H. now rewrite H.
  - apply Z.ltb_lt in H. rewrite H. apply orb_true_iff. left. apply orb_true_r.
  - rewrite H. apply orb_true_r.
Qed.

(** The tail of a handler on an error status with the body [null]. *)
Lemma forward_tail_null rt s generic :
  status_ok s = false ->
  (if negb (status_ok s) then
     match upstream_error_body JNull generic with
     | inl e => inl e
     | inr body => NextResponse_json rt body s
     end
   else NextResponse_json rt JNull s) =
  inl (ErrorObject (nullish_read_message "null" "error")).
Proof. intros ->. reflexivity. Qed.

(** The tail of a handler on a status that cannot be sent on. *)
Lemma forward_tail_unsendable rt s data generic :
  (status_ok s = true \/ data <> JNull) ->
  s < 200 \/ 599 < s \/ null_body_status s = true ->
  (if negb (status_ok s) then
     match upstream_error_body data generic with
     | inl e => inl e
     | inr body => NextResponse_json rt body s
     end
   else NextResponse_json rt data s) =
  inl (ErrorObject (response_init_message rt s)).
Proof.
  intros Hdata Hs.
  destruct (status_ok s) eqn:Hok; cbn [negb].
  - now apply NextResponse_json_refuses.
  - destruct Hdata as [Habs | Hnn]; [discriminate Habs|].
    destruct (upstream_error_body_cases data generic) as [(Hnull & _) | (_ & ->)].
    + contradiction.
    + now apply NextResponse_json_refuses.
Qed.

(** X4: when the key is set and the upstream answers with a JSON content
    type and a body that parses, the status route replies as follows.
    If the upstream status can be sent on (200..599, not 204, 205 or
    304) and the body is not [null] on an error status: the upstream
    status with, for a success status, the upstream body unchanged, and
    for an error status [{ error }] holding the upstream's [error] when
    that is truthy and the generic message otherwise.  If the status is
    an error and the body is [null]: 500 "Server error: " with the
    message of the TypeError.  Otherwise, if the status cannot be sent
    on: 500 "Server error: " with the message of the exception that
    building the reply raises. *)
Theorem status_route_forwards (rt : Runtime) (k videoId : string)
    (upstream : UpstreamRequest -> UpstreamOutcome)
    (res : UpstreamResponse) (c : string) (data : JSON) :
  k <> "" ->
  upstream (StatusRoute.request k videoId) = UpResponded res ->
  up_content_type res = Some c -> includes "application/json" c = true ->
  up_json rt res = inr data ->
  let s := up_status res in
  let out := StatusRoute.GET rt (Some k) videoId upstream in
  let server_error (m : string) : Handled :=
    (inr (mkReply 500 (error_body ("Server error: " ++ m))),
     [StatusRoute.request k videoId]) in
  (200 <= s <= 599 -> null_body_status s = false ->
   (status_ok s = false -> data <> JNull) ->
   out = (inr (mkReply s (forwarded_body s data "HeyGen status API request failed")),
          [StatusRoute.request k videoId])) /\
  (status_ok s = false -> data = JNull ->
   out = server_error (nullish_read_message "null" "error")) /\
  ((status_ok s = true \/ data <> JNull) ->
   (s < 200 \/ 599 < s \/ null_body_status s = true) ->
   out = server_error (response_init_message rt s)).
Proof.
  intros Hk Hup Hc Hinc Hjson. cbv zeta.
  unfold StatusRoute.GET, StatusRoute.GET_try.
  destruct k as [|c0 k]; [now destruct Hk|].
  rewrite Hup, Hc. cbn [js_not]. rewrite (includes_nonempty _ Hinc), Hinc. cbn [orb negb].
  rewrite Hjson. split_all 2%nat.
  - intros Hs Hn Hdata. rewrite (forward_tail rt _ _ _ Hs Hn Hdata). reflexivity.
  - intros Hbad ->. rewrite (forward_tail_null rt _ _ Hbad). reflexivity.
  - intros Hdata Hs. rewrite (forward_tail_unsendable rt _ _ _ Hdata Hs). reflexivity.
Qed.

Lemma status_route_forwards_witness :
  StatusRoute.GET sample_runtime (Some "secret") "v1"
    (always (mkUpstreamResponse 429 json_type (inr quota_text))) =
  (inr (mkReply 429 (JObj [("error", JObj [("message", JStr "quota exceeded")])])),
   [StatusRoute.request "secret" "v1"]) /\
  StatusRoute.GET sample_runtime (Some "secret") "v1"
    (always (mkUpstreamResponse 500 json_type (inr "null"))) =
  (inr (mkReply 500
          (error_body "Server error: Cannot read properties of null (reading 'error')")),
   [StatusRoute.request "secret" "v1"]).
Proof.
  split.
  - apply (status_route_forwards sample_runtime "secret" "v1"
             (always (mkUpstreamResponse 429 json_type (inr quota_text)))
             (mkUpstreamResponse 429 json_type (inr quota_text))
             "application/json; charset=utf-8"
             (JObj [("error", JObj [("message", JStr "quota exceeded")])])).
    + discriminate.
    + reflexivity.
    + reflexivity.
    + reflexivity.
    + reflexivity.
    + cbn. lia.
    + reflexivity.
    + discriminate.
  - apply (status_route_forwards sample_runtime "secret" "v1"
             (always (mkUpstreamResponse 500 json_type (inr "null")))
             (mkUpstreamResponse 500 json_type (inr "null"))
             "application/json; charset=utf-8" JNull).
    + discriminate.
    + reflexivity.
    + reflexivity.
    + reflexivity.
    + reflexivity.
    + reflexivity.
    + reflexivity.
Defined.

(** X5: when the upstream answer has no content type, or one that does
    not contain "application/json" (compared as written), the status
    route replies 500 "Invalid response format from HeyGen API" whatever
    the upstream status and body are, provided the body can be read. *)
Theorem status_route_content_type_guard (rt : Runtime) (k videoId : string)
    (upstream : UpstreamRequest -> UpstreamOutcome)
    (res : UpstreamResponse) (text : string) :
  k <> "" ->
  upstream (StatusRoute.request k videoId) = UpResponded res ->
  (forall c, up_content_type res = Some c -> includes "application/json" c = false) ->
  up_text res = inr text ->
  StatusRoute.GET rt (Some k) videoId upstream =
  (inr (mkReply 500 (error_body "Invalid response format from HeyGen API")),
   [StatusRoute.request k videoId]).
Proof.
  intros Hk Hup Hc Htext.
  unfold StatusRoute.GET, StatusRoute.GET_try.
  destruct k as [|c0 k]; [now destruct Hk|].
  rewrite Hup.
  destruct (up_content_type res) as [c|]; cbn [js_not].
  - rewrite (Hc c eq_refl). cbn [negb]. rewrite orb_true_r, Htext. reflexivity.
  - cbn [orb]. rewrite Htext. reflexivity.
Qed.

Lemma status_route_content_type_guard_witness :
  StatusRoute.GET sample_runtime (Some "secret") "v1"
    (always (mkUpstreamResponse 200 (Some "Application/JSON") (inr processing_text))) =
  (inr (mkReply 500 (error_body "Invalid response format from HeyGen API")),
   [StatusRoute.request "secret" "v1"]).
Proof.
  apply (status_route_content_type_guard sample_runtime "secret" "v1"
           (always (mkUpstreamResponse 200 (Some "Application/JSON") (inr processing_text)))
           (mkUpstreamResponse 200 (Some "Application/JSON") (inr processing_text))
           processing_text).
  - discriminate.
  - reflexivity.
  - intros c [= <-]. reflexivity.
  - reflexivity.
Defined.

(** X6: the two versions of the status route give the same result
    whenever every upstream response declares a content type that
    contains "application/json". *)
Theorem status_routes_agree_on_json (rt : Runtime) (key : option string) (videoId : string)
    (upstream : UpstreamRequest -> UpstreamOutcome) :
  (forall req res, upstream req = UpResponded res ->
                   exists c, up_content_type res = Some c /\
                             includes "application/json" c = true) ->
  StatusRoute.GET rt key videoId upstream = StatusRouteUnchecked.GET rt key videoId upstream.
Proof.
  intros Hjson.
  unfold StatusRoute.GET, StatusRouteUnchecked.GET, StatusRoute.GET_try,
    StatusRouteUnchecked.GET_try.
  destruct key as [[|c0 k]|]; try reflexivity.
  destruct (upstream _) as [e | res] eqn:U; [reflexivity|].
  destruct (Hjson _ _ U) as (c & -> & Hinc).
  cbn [js_not]. rewrite (includes_nonempty _ Hinc), Hinc. reflexivity.
Qed.

Lemma status_routes_agree_on_json_witness :
  StatusRoute.GET sample_runtime (Some "secret") "v1"
    (always (mkUpstreamResponse 200 json_type (inr processing_text))) =
  StatusRouteUnchecked.GET sample_runtime (Some "secret") "v1"
    (always (mkUpstreamResponse 200 json_type (inr processing_text))).
Proof.
  apply (status_routes_agree_on_json sample_runtime (Some "secret") "v1"
           (always (mkUpstreamResponse 200 json_type (inr processing_text)))).
  intros req res [= <-]. exists "application/json; charset=utf-8". split; reflexivity.
Defined.

(** X7: when the upstream body of the generate route is not valid JSON,
    the reply is 500 with "Invalid JSON response from HeyGen" and the
    body text echoed under [raw], whatever the upstream status. *)
Theorem generate_route_invalid_json (rt : Runtime) (k : string) (body : JSON)
    (upstream : UpstreamRequest -> UpstreamOutcome)
    (res : UpstreamResponse) (text : string) (e : Thrown) :
  k <> "" ->
  upstream (GenerateRoute.request k body) = UpResponded res ->
  up_text res = inr text ->
  JSON_parse rt text = inl e ->
  GenerateRoute.POST rt (Some k) (inr body) upstream =
  (inr (mkReply 500
          (JObj [("error", JObj [("message", JStr "Invalid JSON response from HeyGen")]);
                 ("raw", JStr text)])),
   [GenerateRoute.request k body]).
Proof.
  intros Hk Hup Htext Hparse.
  unfold GenerateRoute.POST, GenerateRoute.POST_try.
  destruct k as [|c0 k]; [now destruct Hk|].
  rewrite Hup, Htext, Hparse. reflexivity.
Qed.

Lemma generate_route_invalid_json_witness :
  GenerateRoute.POST sample_runtime (Some "secret") (inr (payload "hi"))
    (always (mkUpstreamResponse 502 (Some "text/html") (inr "<html>Bad gateway</html>"))) =
  (inr (mkReply 500
          (JObj [("error", JObj [("message", JStr "Invalid JSON response from HeyGen")]);
                 ("raw", JStr "<html>Bad gateway</html>")])),
   [GenerateRoute.request "secret" (payload "hi")]).
Proof.
  apply (generate_route_invalid_json sample_runtime "secret" (payload "hi")
           (always (mkUpstreamResponse 502 (Some "text/html") (inr "<html>Bad gateway</html>")))
           (mkUpstreamResponse 502 (Some "text/html") (inr "<html>Bad gateway</html>"))
           "<html>Bad gateway</html>" (ErrorObject "Unexpected token")).
  - discriminate.
  - reflexivity.
  - reflexivity.
  - reflexivity.
Defined.

(** X8: when the request body parses, the key is set and the upstream
    body parses, the generate route sends the request body on unchanged
    with the key in the X-Api-Key header, and replies as follows.  If the
    upstream status can be sent on (200..599, not 204, 205 or 304) and
    the body is not [null] on an error status: the upstream status with,
    for a success status, the upstream body unchanged, and for an error
    status [{ error }] holding the upstream's [error] when that is truthy
    and the generic message otherwise.  If the status is an error and the
    body is [null]: 500 "Server error: " with the message of the
    TypeError.  Otherwise, if the status cannot be sent on: 500 "Server
    error: " with the message of the exception that building the reply
    raises. *)
Theorem generate_route_forwards (rt : Runtime) (k : string) (body : JSON)
    (upstream : UpstreamRequest -> UpstreamOutcome)
    (res : UpstreamResponse) (text : string) (data : JSON) :
  k <> "" ->
  upstream (mkUpstreamRequest "POST" "https://api.heygen.com/v2/video/generate"
              [("Content-Type", "application/json"); ("X-Api-Key", k)] (Some body))
    = UpResponded res ->
  up_text res = inr text -> JSON_parse rt text = inr data ->
  let s := up_status res in
  let out := GenerateRoute.POST rt (Some k) (inr body) upstream in
  let sent :=
    [mkUpstreamRequest "POST" "https://api.heygen.com/v2/video/generate"
       [("Content-Type", "application/json"); ("X-Api-Key", k)] (Some body)] in
  let server_error (m : string) : Handled :=
    (inr (mkReply 500 (error_body ("Server error: " ++ m))), sent) in
  snd out = sent /\
  (200 <= s <= 599 -> null_body_status s = false ->
   (status_ok s = false -> data <> JNull) ->
   out = (inr (mkReply s (forwarded_body s data "HeyGen API request failed")), sent)) /\
  (status_ok s = false -> data = JNull ->
   out = server_error (nullish_read_message "null" "error")) /\
  ((status_ok s = true \/ data <> JNull) ->
   (s < 200 \/ 599 < s \/ null_body_status s = true) ->
   out = server_error (response_init_message rt s)).
Proof.
  intros Hk Hup Htext Hparse. cbv zeta.
  unfold GenerateRoute.POST, GenerateRoute.POST_try, GenerateRoute.request.
  destruct k as [|c0 k]; [now destruct Hk|].
  rewrite Hup, Htext, Hparse. split_all 3%nat.
  - match goal with |- snd (server_error _ (?t, _)) = _ => destruct t end; reflexivity.
  - intros Hs Hn Hdata. rewrite (forward_tail rt _ _ _ Hs Hn Hdata). reflexivity.
  - intros Hbad ->. rewrite (forward_tail_null rt _ _ Hbad). reflexivity.
  - intros Hdata Hs. rewrite (forward_tail_unsendable rt _ _ _ Hdata Hs). reflexivity.
Qed.

Lemma generate_route_forwards_witness :
  fst (GenerateRoute.POST sample_runtime (Some "secret") (inr (payload "hi"))
         (always (mkUpstreamResponse 429 json_type (inr quota_text)))) =
  inr (mkReply 429 (JObj [("error", JObj [("message", JStr "quota exceeded")])])) /\
  fst (GenerateRoute.POST sample_runtime (Some "secret") (inr (payload "hi"))
         (always (mkUpstreamResponse 700 json_type (inr quota_text)))) =
  inr (mkReply 500 (error_body "Server error: Invalid response status code")).
Proof.
  split.
  - rewrite (proj1 (proj2 (generate_route_forwards sample_runtime "secret" (payload "hi")
               (always (mkUpstreamResponse 429 json_type (inr quota_text)))
               (mkUpstreamResponse 429 json_type (inr quota_text))
               quota_text
               (JObj [("error", JObj [("message", JStr "quota exceeded")])])
               ltac:(discriminate) eq_refl eq_refl eq_refl))).
    + reflexivity.
    + cbn. lia.
    + reflexivity.
    + discriminate.
  - rewrite (proj2 (proj2 (proj2 (generate_route_forwards sample_runtime "secret" (payload "hi")
               (always (mkUpstreamResponse 700 json_type (inr quota_text)))
               (mkUpstreamResponse 700 json_type (inr quota_text))
               quota_text
               (JObj [("error", JObj [("message", JStr "quota exceeded")])])
               ltac:(discriminate) eq_refl eq_refl eq_refl)))).
    + reflexivity.
    + right. discriminate.
    + right. left. cbn. lia.
Defined.

(** * The page: what every run keeps *)

Lemma last_cons_default {A} (x : A) l d d' : last (x :: l) d = last (x :: l) d'.
Proof.
  revert x. induction l as [|y l IH]; intros x; [reflexivity|].
  change (last (y :: l) d = last (y :: l) d'). apply IH.
Qed.

Lemma attempt_statuses_kept P w tail final :
  kept P -> attempt_tail w tail final ->
  Forall P (status_only generating 10 :: statuses tail) /\
  last (status_only generating 10 :: statuses tail) final = final /\
  (status final = completed \/ status final = failed).
Proof.
  intros (Hidle & Hgen & Hproc & Hdone & Hfail) Htail.
  assert (Hfinal : forall videoId, truthy videoId = true -> final_shape videoId final ->
                   P final /\ (status final = completed \/ status final = failed)).
  { intros videoId Hid [(url & Hu & ->) | (m & ->)]; split; auto. }
  destruct (attempt_tail_statuses _ _ _ Htail)
    as [(m & -> & ->) | (videoId & n & Hid & Hshape & ->)].
  - split_all 2%nat; [|reflexivity | now right].
    constructor; [exact Hgen|]. constructor; [apply Hfail | constructor].
  - destruct (Hfinal _ Hid Hshape) as [HP Hst].
    split_all 2%nat; [| | exact Hst].
    + constructor; [exact Hgen|]. constructor; [apply Hproc; [assumption | lia]|].
      apply Forall_app. split; [|constructor; [exact HP | constructor]].
      apply Forall_forall. intros v Hin. apply in_map_iff in Hin.
      destruct Hin as (i & <- & _). apply Hproc; [assumption|].
      apply displayed_progress_range.
    + rewrite 2!app_comm_cons, last_last. reflexivity.
Qed.

(** What one handled action adds to the history, for any kept
    property. *)
Lemma dispatch_kept P a w :
  kept P ->
  exists delta,
    trace (snd (dispatch a w)) = (trace w ++ delta)%list /\
    Forall P (statuses delta) /\
    videoStatus (snd (dispatch a w)) = last (statuses delta) (videoStatus w) /\
    (generate_disabled (videoStatus w) = false ->
     generate_disabled (videoStatus (snd (dispatch a w))) = false).
Proof.
  intros HP.
  assert (Hsame : forall w', trace w' = trace w -> videoStatus w' = videoStatus w ->
            exists delta,
              trace w' = (trace w ++ delta)%list /\ Forall P (statuses delta) /\
              videoStatus w' = last (statuses delta) (videoStatus w) /\
              (generate_disabled (videoStatus w) = false ->
               generate_disabled (videoStatus w') = false)).
  { intros w' Ht Hv. exists []. rewrite app_nil_r, Hv. cbn. auto. }
  destruct a as [text | | ]; cbn [dispatch].
  - now apply Hsame.
  - unfold bind, gets. destruct (generate_disabled (videoStatus w)); [now apply Hsame|].
    destruct (Nat.eq_dec (String.length (trim (prompt w))) 0) as [Hz | Hnz];
      [| destruct (le_gt_dec (String.length (prompt w)) 1500) as [Hle | Hgt]].
    + destruct (generate_rejected w (or_introl Hz)) as (entry & -> & _). now apply Hsame.
    + destruct (generate_run w) as (w' & tail & -> & Htr & Htail & _); [split; lia|].
      destruct (attempt_statuses_kept P _ _ _ HP Htail) as (Hall & Hlast & Hst).
      eexists. split; [exact Htr|]. cbn [snd].
      cbn [statuses flat_map generate_events app]. fold (statuses tail).
      split_all 2%nat.
      * exact Hall.
      * rewrite <- Hlast at 1. apply last_cons_default.
      * intros _. unfold generate_disabled. destruct Hst as [-> | ->]; reflexivity.
    + destruct (generate_rejected w (or_intror Hgt)) as (entry & -> & _). now apply Hsame.
  - exists [EvSetVideoStatus (status_only idle 0)].
    destruct HP as (Hidle & _).
    unfold resetGenerator, bind, gets, setVideoStatus, modify. world_simpl.
    destruct (videoRef w); world_simpl; split_all 3%nat; try reflexivity.
    all: constructor; [exact Hidle | constructor].
Qed.

Lemma session_kept P acts :
  kept P ->
  forall w,
  exists delta,
    trace (session acts w) = (trace w ++ delta)%list /\
    Forall P (statuses delta) /\
    videoStatus (session acts w) = last (statuses delta) (videoStatus w) /\
    (generate_disabled (videoStatus w) = false ->
     generate_disabled (videoStatus (session acts w)) = false).
Proof.
  intros HP. induction acts as [|a acts IH]; intros w; cbn [session fold_left].
  - exists []. cbn. rewrite app_nil_r. auto.
  - destruct (dispatch_kept P a w HP) as (d1 & Ht1 & Hi1 & Hv1 & Hb1).
    destruct (IH (snd (dispatch a w))) as (d2 & Ht2 & Hi2 & Hv2 & Hb2).
    unfold session in Ht2, Hv2, Hb2.
    exists (d1 ++ d2)%list. split_all 3%nat.
    + rewrite Ht2, Ht1. now rewrite app_assoc.
    + rewrite statuses_app. apply Forall_app. now split.
    + rewrite Hv2, Hv1, statuses_app.
      destruct (statuses d2) as [|x l] eqn:Hd2 using rev_ind.
      * now rewrite app_nil_r.
      * now rewrite app_assoc, !last_last.
    + auto.
Qed.

Lemma last_in_history {A} (l : list A) d : In (last l d) (d :: l).
Proof.
  destruct l as [|x l] using rev_ind; [now left|].
  rewrite last_last. right. apply in_or_app. right. now left.
Qed.

Lemma consistent_kept : kept consistent.
Proof.
  unfold kept, consistent, failed_with. cbn.
  split_all 4%nat; auto.
  intros m. split_all 3%nat; auto. discriminate.
Qed.

Lemma consistent_but_progress_kept : kept consistent_but_progress.
Proof.
  unfold kept, consistent_but_progress, failed_with. cbn.
  split_all 4%nat; auto 6.
  intros m. split_all 3%nat; auto. discriminate.
Qed.

Lemma literal_writes_app t1 t2 :
  literal_writes (t1 ++ t2) = (literal_writes t1 ++ literal_writes t2)%list.
Proof. apply flat_map_app. Qed.

Lemma literal_writes_processing_run videoId v k :
  forall a, literal_writes (processing_run videoId v a k) = [].
Proof.
  induction k as [|k IH]; intros a; [reflexivity|].
  cbn [processing_run]. rewrite literal_writes_app, IH. reflexivity.
Qed.

(** What an attempt writes: records of the five shapes, and progress
    between 30 and 90. *)
Lemma attempt_tail_writes w tail final :
  attempt_tail w tail final ->
  Forall consistent (literal_writes tail) /\
  Forall (fun p => 30 <= p <= 90) (progress_calls tail).
Proof.
  assert (Hfinal : forall videoId v, truthy videoId = true -> final_shape videoId v ->
                   consistent v).
  { intros videoId v Hid [(url & Hu & ->) | (m & ->)].
    - unfold consistent. cbn. auto.
    - apply consistent_kept. }
  intros [m Hid | n fin ev videoId started Hid Hn Hclose Hshape].
  - split; [|constructor]. constructor; [apply consistent_kept | constructor].
  - change (EvSetVideoStatus started :: processing_run videoId started 0 n ++ ev)%list
      with ([EvSetVideoStatus started] ++ processing_run videoId started 0 n ++ ev)%list.
    rewrite !literal_writes_app, !progress_calls_app, literal_writes_processing_run,
      progress_calls_processing_run.
    assert (Hev : literal_writes ev = [fin] /\ progress_calls ev = []).
    { destruct Hclose as [-> | [_ ->]]; split; reflexivity. }
    destruct Hev as [-> ->]. cbn [literal_writes progress_calls flat_map app].
    rewrite app_nil_r. split.
    + constructor; [|constructor; [eapply Hfinal; eassumption | constructor]].
      unfold consistent, started. cbn. split_all 3%nat; auto. lia.
    + apply Forall_forall. intros p Hin. apply in_map_iff in Hin.
      destruct Hin as (i & <- & _). apply displayed_progress_range.
Qed.

Lemma dispatch_writes a w :
  exists delta,
    trace (snd (dispatch a w)) = (trace w ++ delta)%list /\
    Forall consistent (literal_writes delta) /\
    Forall (fun p => 30 <= p <= 90) (progress_calls delta).
Proof.
  assert (Hsame : forall w', trace w' = trace w ->
            exists delta,
              trace w' = (trace w ++ delta)%list /\
              Forall consistent (literal_writes delta) /\
              Forall (fun p => 30 <= p <= 90) (progress_calls delta)).
  { intros w' Ht. exists []. rewrite app_nil_r. split_all 2%nat; [exact Ht | | ]; constructor. }
  destruct a as [text | | ]; cbn [dispatch].
  - now apply Hsame.
  - unfold bind, gets. destruct (generate_disabled (videoStatus w)); [now apply Hsame|].
    destruct (Nat.eq_dec (String.length (trim (prompt w))) 0) as [Hz | Hnz];
      [| destruct (le_gt_dec (String.length (prompt w)) 1500) as [Hle | Hgt]].
    + destruct (generate_rejected w (or_introl Hz)) as (entry & -> & _). now apply Hsame.
    + destruct (generate_run w) as (w' & tail & -> & Htr & Htail & _); [split; lia|].
      destruct (attempt_tail_writes _ _ _ Htail) as (Hlit & Hcalls).
      eexists. split; [exact Htr|]. split.
      * cbn [literal_writes flat_map generate_events app]. fold (literal_writes tail).
        constructor; [apply consistent_kept | exact Hlit].
      * cbn [progress_calls flat_map generate_events app]. exact Hcalls.
    + destruct (generate_rejected w (or_intror Hgt)) as (entry & -> & _). now apply Hsame.
  - exists [EvSetVideoStatus (status_only idle 0)].
    unfold resetGenerator, bind, gets, setVideoStatus, modify. world_simpl.
    destruct (videoRef w); world_simpl; split_all 2%nat; try reflexivity.
    all: try (constructor; [reflexivity | constructor]).
    all: constructor.
Qed.

Lemma session_writes acts :
  forall w,
  exists delta,
    trace (session acts w) = (trace w ++ delta)%list /\
    Forall consistent (literal_writes delta) /\
    Forall (fun p => 30 <= p <= 90) (progress_calls delta).
Proof.
  induction acts as [|a acts IH]; intros w; cbn [session fold_left].
  - exists []. rewrite app_nil_r. split_all 2%nat; [reflexivity | | ]; constructor.
  - destruct (dispatch_writes a w) as (d1 & Ht1 & Hl1 & Hc1).
    destruct (IH (snd (dispatch a w))) as (d2 & Ht2 & Hl2 & Hc2).
    unfold session in Ht2.
    exists (d1 ++ d2)%list. split_all 2%nat.
    + rewrite Ht2, Ht1. now rewrite app_assoc.
    + rewrite literal_writes_app. apply Forall_app. now split.
    + rewrite progress_calls_app. apply Forall_app. now split.
Qed.

(** X9: in any session and for any replies, every record that a handler
    writes with [setVideoStatus(value)] has one of five shapes: idle
    with progress 0 and nothing else; generating with progress 10 and
    nothing else; processing with a truthy job identifier and progress
    between 30 and 90; completed with a truthy identifier, a truthy
    result URL and progress 100; failed with an error message, progress 0
    and neither identifier nor URL.  Every progress update sets a
    progress between 30 and 90 and leaves the other fields as they are.
    So every record the page holds has the fields of the shape of its
    status, with the progress of that shape or one between 30 and 90, and
    a progress update keeps this on whatever record it lands. *)
Theorem status_record_shapes
    (net : nat -> FetchOutcome) (now : Z) (fmt : Z -> string) (acts : list Action) :
  let w := session acts (initial_world net now fmt) in
  Forall consistent (literal_writes (trace w)) /\
  Forall (fun p => 30 <= p <= 90) (progress_calls (trace w)) /\
  Forall consistent_but_progress (initial_videoStatus :: statuses (trace w)) /\
  consistent_but_progress (videoStatus w) /\
  (forall v p, 30 <= p <= 90 ->
     consistent_but_progress v ->
     consistent_but_progress
       (mkVideoStatus (status v) (videoId v) (videoUrl v) p (vs_error v))).
Proof.
  cbv zeta.
  destruct (session_writes acts (initial_world net now fmt)) as (d & Htr' & Hlit & Hcalls).
  destruct (session_kept consistent_but_progress acts consistent_but_progress_kept
              (initial_world net now fmt))
    as (delta & Htr & Hall & Hlast & _).
  cbn [trace initial_world app videoStatus] in Htr, Htr', Hlast.
  assert (H : Forall consistent_but_progress (initial_videoStatus :: statuses delta)).
  { constructor; [|exact Hall]. apply consistent_but_progress_kept. }
  split_all 4%nat.
  - now rewrite Htr'.
  - now rewrite Htr'.
  - now rewrite Htr.
  - rewrite Hlast. rewrite Forall_forall in H. apply H. apply last_in_history.
  - intros v p Hp. unfold consistent_but_progress. cbn.
    destruct (status v); intros (H1 & H2 & H3 & H4); auto 6.
Qed.

Lemma rendering_kept : kept rendering.
Proof.
  unfold kept, rendering, player_shown, alert_shown, getStatusColor, generate_disabled,
    failed_with.
  cbn. split_all 4%nat; intros.
  all: repeat split; intros; try discriminate; try reflexivity; try assumption.
Qed.

(** X10: in every state the page goes through, the video player with
    its Download button is rendered exactly when the status is
    completed, the error alert only when the status is failed, a failed
    status always carries an error, and the status dot is blue exactly
    when the Generate button is disabled; once the handlers of a session
    have run to completion the Generate button is enabled. *)
Theorem page_rendering
    (net : nat -> FetchOutcome) (now : Z) (fmt : Z -> string) (acts : list Action) :
  let w := session acts (initial_world net now fmt) in
  Forall rendering (initial_videoStatus :: statuses (trace w)) /\
  generate_disabled (videoStatus w) = false.
Proof.
  cbv zeta.
  destruct (session_kept rendering acts rendering_kept (initial_world net now fmt))
    as (delta & Htr & Hall & _ & Hbutton).
  cbn [trace initial_world app] in Htr. rewrite Htr. split.
  - constructor; [|exact Hall]. apply rendering_kept.
  - apply Hbutton. reflexivity.
Qed.

(** X11: [generateVideo] and [pollVideoStatus] never reject: every
    exception raised while they run is caught.  With a prompt that
    passes the checks [generateVideo] always ends in completed or failed;
    otherwise it leaves the status record as it was.  [pollVideoStatus]
    always ends in completed or failed. *)
Theorem attempts_always_settle (w : World) (videoId : JSValue) :
  let terminal (v : VideoStatus) := status v = completed \/ status v = failed in
  fst (generateVideo w) = Normal tt /\
  ((String.length (trim (prompt w)) > 0 /\ String.length (prompt w) <= 1500)%nat ->
   terminal (videoStatus (snd (generateVideo w)))) /\
  ((String.length (trim (prompt w)) = 0 \/ String.length (prompt w) > 1500)%nat ->
   videoStatus (snd (generateVideo w)) = videoStatus w) /\
  fst (pollVideoStatus videoId w) = Normal tt /\
  terminal (videoStatus (snd (pollVideoStatus videoId w))).
Proof.
  cbv zeta.
  assert (Hacc : (String.length (trim (prompt w)) > 0 /\ String.length (prompt w) <= 1500)%nat ->
                 fst (generateVideo w) = Normal tt /\
                 (status (videoStatus (snd (generateVideo w))) = completed \/
                  status (videoStatus (snd (generateVideo w))) = failed)).
  { intros Hok. destruct (generate_run w Hok) as (w' & tail & -> & _ & Htail & _).
    split; [reflexivity|]. cbn [snd].
    destruct (attempt_statuses_kept (fun _ => True) _ _ _ (conj I (conj I (conj (fun _ _ _ _ => I)
               (conj (fun _ _ _ _ => I) (fun _ => I))))) Htail) as (_ & _ & H).
    exact H. }
  assert (Hrej : (String.length (trim (prompt w)) = 0 \/ String.length (prompt w) > 1500)%nat ->
                 fst (generateVideo w) = Normal tt /\
                 videoStatus (snd (generateVideo w)) = videoStatus w).
  { intros Hbad. destruct (generate_rejected w Hbad) as (entry & -> & _). split; reflexivity. }
  split_all 4%nat.
  - destruct (Nat.eq_dec (String.length (trim (prompt w))) 0) as [Hz | Hnz];
      [apply Hrej; now left|].
    destruct (le_gt_dec (String.length (prompt w)) 1500) as [Hle | Hgt];
      [apply Hacc; lia | apply Hrej; now right].
  - apply Hacc.
  - apply Hrej.
  - destruct (poll_run_any videoId w) as (w' & n & final & tail & _ & -> & _). reflexivity.
  - destruct (poll_run_any videoId w)
      as (w' & n & final & tail & _ & -> & _ & _ & Hshape & Hv & _).
    cbn [snd]. rewrite Hv. destruct Hshape as [(url & _ & ->) | (m & ->)]; auto.
Qed.



(** ** Queries, waits and the log *)


Lemma fetched_processing_run videoId v k :
  forall a, fetched (processing_run videoId v a k) = repeat (status_url videoId, None) k.
Proof.
  induction k as [|k IH]; intros a; [reflexivity|].
  cbn [processing_run]. unfold fetched. rewrite flat_map_app.
  fold (fetched (processing_run videoId v (a + 1) k)).
  rewrite IH. reflexivity.
Qed.


Lemma poll_attempt_terminal_log videoId a w :
  still_processing (reply w 0) = false ->
  exists entry rest,
    logs (snd (poll_attempt videoId a w)) = entry :: rest /\
    tells entry (videoStatus (snd (poll_attempt videoId a w))).
Proof.
  unfold tells, reply, still_processing, reply_data.
  rewrite Nat.add_0_r. intros H.
  unfold poll_attempt, poll_try, try_catch, bind, fetch, addLog, modify.
  cbn [network fetches set_logs].
  destruct (network w (fetches w)) as [e | [o [e | v]]] eqn:E;
    [ | destruct o | destruct o; destruct v ]; js_step;
    repeat match goal with
      | |- context [if strict_eq_str ?x ?l then _ else _] =>
          destruct (strict_eq_str x l) eqn:?; js_step
      | |- context [if negb (truthy ?x) then _ else _] =>
          destruct (truthy x) eqn:?; js_step
      end;
    try discriminate.
  all: do 2 eexists; split; [reflexivity|].
  all: first [ left; split; reflexivity
             | right; split_all 2%nat; [reflexivity | reflexivity |];
               eexists; split; [reflexivity | left; reflexivity] ].
Qed.

Lemma poll_log videoId w :
  exists entry rest,
    logs (snd (pollVideoStatus videoId w)) = entry :: rest /\
    tells entry (videoStatus (snd (pollVideoStatus videoId w))).
Proof.
  destruct (first_terminal (fun i => still_processing (reply w i)) 100)
    as (n & Hn & Hp & Hstop).
  destruct (poll_while_processing videoId n 0 w) as (w1 & Hrun & _ & _ & Hf & Hfr);
    [unfold maxAttempts; lia | assumption |].
  unfold pollVideoStatus, bind. rewrite Hrun, poll_while_step.
  destruct (Nat.eq_dec n 100) as [-> | Hne].
  - replace (0 + Z.of_nat 100 <? maxAttempts) with false by reflexivity.
    unfold setVideoStatus, addLog, modify. world_simpl.
    do 2 eexists. split; [reflexivity|].
    right. split_all 2%nat; [reflexivity | reflexivity |].
    eexists. split; [reflexivity|]. right. right. split; reflexivity.
  - replace (0 + Z.of_nat n <? maxAttempts) with true
      by (symmetry; apply Z.ltb_lt; unfold maxAttempts; lia).
    assert (Hr : still_processing (reply w1 0) = false).
    { unfold reply. destruct Hfr as (-> & _). rewrite Hf, Nat.add_0_r. apply Hstop. lia. }
    destruct (poll_attempt_terminal_log videoId (0 + Z.of_nat n) w1 Hr)
      as (entry & rest & Hlogs & Htells).
    destruct (poll_attempt_terminal videoId (0 + Z.of_nat n) w1 Hr) as (w2 & v & Hrun2 & _).
    rewrite Hrun2 in *. cbn [snd] in *. now exists entry, rest.
Qed.

(** X13: after [generateVideo] has run on a prompt that passes the
    checks, the newest log entry tells the outcome: it is of type success
    when the status is completed, and of type error when the status is
    failed, its message then being the error of the status record, that
    error after "Generation failed: " (a failed submission), or the
    time-out notice. *)
Theorem newest_log_entry_tells_outcome (w : World) :
  (String.length (trim (prompt w)) > 0 /\ String.length (prompt w) <= 1500)%nat ->
  exists entry rest,
    logs (snd (generateVideo w)) = entry :: rest /\
    tells entry (videoStatus (snd (generateVideo w))).
Proof.
  intros Hok.
  unfold generateVideo, bind, gets.
  destruct (prompt_checks _ Hok) as [-> ->].
  unfold try_catch, setVideoStatus, addLog, modify.
  set (w0 := set_logs _ (emit _ (set_videoStatus _ w))).
  destruct (truthy (submitted_id (reply w0 0))) eqn:Hid.
  - destruct (generate_try_accepted (prompt w) w0 Hid) as (w1 & Hrun & _).
    destruct (poll_log (submitted_id (reply w0 0)) w1) as (entry & rest & Hlogs & Htells).
    destruct (poll_run_any (submitted_id (reply w0 0)) w1) as (w' & n & final & tail & _ & Hrun' & _).
    rewrite Hrun, Hrun' in *. cbn [snd] in *. now exists entry, rest.
  - destruct (generate_try_refused (prompt w) w0 Hid) as (e & w1 & Hrun & _).
    rewrite Hrun. world_simpl.
    do 2 eexists. split; [reflexivity|].
    right. split_all 2%nat; [reflexivity | reflexivity |].
    eexists. split; [reflexivity|]. right. left. reflexivity.
Qed.

Lemma newest_log_entry_tells_outcome_witness :
  let w := initial_world (replies [created_reply; processing_reply] completed_reply)
             0 (fun _ => "12:00:00") in
  exists entry rest,
    logs (snd (generateVideo w)) = entry :: rest /\
    tells entry (videoStatus (snd (generateVideo w))).
Proof.
  cbv zeta.
  apply (newest_log_entry_tells_outcome
           (initial_world (replies [created_reply; processing_reply] completed_reply)
              0 (fun _ => "12:00:00"))).
  vm_compute. split; lia.
Defined.



(** ** [downloadVideo] *)

(** X14: [downloadVideo] never rejects and never changes the status
    record or the prompt; it makes at most one network call and no status
    update; when the record has no truthy result URL it does nothing at
    all. *)
Theorem download_leaves_status_alone (Blob : Type) (blob_of : Response -> Thrown + Blob)
    (createObjectURL : Blob -> string) (b : Browser Blob) :
  let out := downloadVideo Blob blob_of createObjectURL b in
  let w := page b in
  let w' := page (snd out) in
  fst out = Normal tt /\
  videoStatus w' = videoStatus w /\
  prompt w' = prompt w /\
  statuses (since w w') = [] /\
  (fetch_count (since w w') <= 1)%nat /\
  (player_shown (videoStatus w) = false -> snd out = b).
Proof.
  cbv zeta. unfold downloadVideo, player_shown, bind, fetch, addLog, modify.
  destruct (truthy (videoUrl (videoStatus (page b)))) eqn:Hurl; cbn [negb].
  - assert (Hsince : forall (w1 : World) l,
              trace w1 = (trace (page b) ++ [EvFetch l None])%list ->
              statuses (since (page b) w1) = [] /\ (fetch_count (since (page b) w1) <= 1)%nat).
    { intros w1 l Ht. rewrite (since_app _ _ _ Ht). split; [reflexivity | cbn; lia]. }
    world_simpl.
    destruct (network (page b) (fetches (page b))) as [e | response]; cbn [fst snd page].
    + split_all 5%nat; try reflexivity; try discriminate.
      all: match goal with
           | |- context [since _ ?w1] =>
               destruct (Hsince w1 _ eq_refl) as [H1 H2]; assumption
           end.
    + destruct (blob_of response); cbn [fst snd page];
        split_all 5%nat; try reflexivity; try discriminate.
      all: match goal with
           | |- context [since _ ?w1] =>
               destruct (Hsince w1 _ eq_refl) as [H1 H2]; assumption
           end.
  - cbn [fst snd]. unfold since. rewrite skipn_all.
    split_all 5%nat; try reflexivity. cbn. lia.
Qed.

(** X15: when the record has a truthy result URL and the fetch settles
    with a response whose blob can be read, [downloadVideo] saves the
    blob whatever the HTTP status of the response is: it creates an
    object URL, clicks an anchor to it named
    [heygen-video-<videoId>.mp4] (or the current time when there is no
    truthy identifier), removes the anchor, revokes the object URL, and
    logs a success entry. *)
Theorem download_saves_any_response (Blob : Type) (blob_of : Response -> Thrown + Blob)
    (createObjectURL : Blob -> string) (b : Browser Blob)
    (response : Response) (blob : Blob) :
  truthy (videoUrl (videoStatus (page b))) = true ->
  reply (page b) 0 = Responded response ->
  blob_of response = inr blob ->
  let b' := snd (downloadVideo Blob blob_of createObjectURL b) in
  let v := videoStatus (page b) in
  let name := "heygen-video-"
              ++ (if truthy (videoId v) then js_to_string (videoId v)
                  else string_of_Z (clock (page b)))
              ++ ".mp4" in
  let url := createObjectURL blob in
  dom b' = (dom b ++ [DomCreateObjectURL blob url; DomAppendChild url name;
                      DomClick url name; DomRemoveChild; DomRevokeObjectURL url])%list /\
  fetched (since (page b) (page b')) = [(js_to_string (videoUrl v), None)] /\
  exists entry rest,
    logs (page b') = entry :: rest /\ type entry = success /\
    message entry = "Video downloaded successfully!".
Proof.
  unfold reply. rewrite Nat.add_0_r. intros Hurl Hreply Hblob. cbv zeta.
  unfold downloadVideo, bind, fetch, addLog, modify. rewrite Hurl. cbn [negb].
  world_simpl. rewrite Hreply, Hblob. cbn [snd dom page]. world_simpl.
  split_all 2%nat.
  - unfold js_or. destruct (truthy (videoId (videoStatus (page b)))); reflexivity.
  - match goal with
    | |- context [since ?w0 ?w1] =>
        rewrite (since_app w0 w1
                   [EvFetch (js_to_string (videoUrl (videoStatus (page b)))) None] eq_refl)
    end.
    reflexivity.
  - do 2 eexists. split_all 2%nat; reflexivity.
Qed.

Lemma download_saves_any_response_witness :
  let expired := mkResponse false (inl (ErrorObject "Unexpected token")) in
  let b := sample_browser (completed_world (fun _ => Responded expired)) in
  dom (snd (downloadVideo Response sample_blob_of sample_object_url b)) =
  [DomCreateObjectURL expired "blob:1"; DomAppendChild "blob:1" "heygen-video-v1.mp4";
   DomClick "blob:1" "heygen-video-v1.mp4"; DomRemoveChild; DomRevokeObjectURL "blob:1"].
Proof.
  cbv zeta.
  exact (proj1 (download_saves_any_response Response sample_blob_of sample_object_url
                  (sample_browser
                     (completed_world
                        (fun _ => Responded (mkResponse false (inl (ErrorObject "Unexpected token"))))))
                  (mkResponse false (inl (ErrorObject "Unexpected token")))
                  (mkResponse false (inl (ErrorObject "Unexpected token")))
                  eq_refl eq_refl eq_refl)).
Defined.

(** X16: when the fetch of the result URL is rejected, or the blob of
    the response cannot be read, [downloadVideo] touches nothing in the
    document and only logs "Failed to download video", without the
    reason. *)
Theorem download_failure_is_only_logged (Blob : Type) (blob_of : Response -> Thrown + Blob)
    (createObjectURL : Blob -> string) (b : Browser Blob) :
  truthy (videoUrl (videoStatus (page b))) = true ->
  ((exists e, reply (page b) 0 = Rejected e) \/
   (exists response e, reply (page b) 0 = Responded response /\ blob_of response = inl e)) ->
  let b' := snd (downloadVideo Blob blob_of createObjectURL b) in
  dom b' = dom b /\
  exists newest started,
    logs (page b') = newest :: started :: logs (page b) /\
    type newest = error /\ message newest = "Failed to download video" /\
    type started = info /\ message started = "Starting video download...".
Proof.
  unfold reply. rewrite Nat.add_0_r. intros Hurl Hfail. cbv zeta.
  unfold downloadVideo, bind, fetch, addLog, modify. rewrite Hurl. cbn [negb].
  world_simpl.
  destruct Hfail as [(e & ->) | (response & e & -> & ->)]; cbn [snd dom page]; world_simpl.
  all: split; [reflexivity|]; do 2 eexists; split_all 4%nat; reflexivity.
Qed.

Lemma download_failure_is_only_logged_witness :
  let b := sample_browser (completed_world (fun _ => Rejected (ErrorObject "Failed to fetch"))) in
  dom (snd (downloadVideo Response sample_blob_of sample_object_url b)) = [].
Proof.
  cbv zeta.
  exact (proj1 (download_failure_is_only_logged Response sample_blob_of sample_object_url
                  (sample_browser
                     (completed_world (fun _ => Rejected (ErrorObject "Failed to fetch"))))
                  eq_refl
                  (or_introl (ex_intro _ (ErrorObject "Failed to fetch") eq_refl)))).
Defined.



(** * The page behind the routes *)

Lemma carries_message_truthy body m :
  carries_message body m ->
  body <> JNull /\
  (if truthy (prop body "error")?."message"
   then js_to_string (prop body "error")?."message"
   else "Failed to check status") = m.
Proof.
  intros [Hm Hne]. split.
  - intros ->. discriminate Hm.
  - rewrite Hm. cbn. destruct (String.eqb_spec m ""); [contradiction | reflexivity].
Qed.

(** The page polls and receives an error reply that carries a message. *)
Lemma poll_shows_reply_message videoId w n s body m :
  (n < 100)%nat ->
  (forall i, (i < n)%nat -> still_processing (reply w i) = true) ->
  reply w n = client_view (mkReply s body) ->
  status_ok s = false ->
  carries_message body m ->
  videoStatus (snd (pollVideoStatus videoId w)) = failed_with m /\
  fetch_count (since w (snd (pollVideoStatus videoId w))) = S n.
Proof.
  intros Hn Hp Hr Hs Hm.
  destruct (carries_message_truthy _ _ Hm) as [Hnn Hmsg].
  unfold client_view in Hr. cbn [reply_status reply_body] in Hr. rewrite Hs in Hr.
  destruct (poll_run_terminal videoId n w) as (w' & v & -> & Htr & Hv & _ & _ & Hspec);
    [assumption | assumption | rewrite Hr; reflexivity |].
  destruct Hspec as (_ & _ & _ & _ & _ & _ & Hhttp).
  cbn [snd]. rewrite (since_app _ _ _ Htr), Hv, (Hhttp body Hr Hnn), Hmsg.
  split; [reflexivity|].
  rewrite fetch_count_app, fetch_count_processing_run. cbn. lia.
Qed.

(** The page submits and receives an error reply that carries a
    message. *)
Lemma generate_shows_reply_message w s body m :
  prompt_accepted (prompt w) ->
  reply w 0 = client_view (mkReply s body) ->
  status_ok s = false ->
  carries_message body m ->
  videoStatus (snd (generateVideo w)) = failed_with m /\
  fetch_count (since w (snd (generateVideo w))) = 1%nat /\
  exists entry rest,
    logs (snd (generateVideo w)) = entry :: rest /\
    type entry = error /\ message entry = "Generation failed: " ++ m.
Proof.
  intros Hok Hr Hs [Hm Hne].
  unfold client_view, reply in Hr. cbn [reply_status reply_body] in Hr.
  rewrite Hs, Nat.add_0_r in Hr.
  unfold generateVideo, bind, gets.
  destruct (prompt_checks _ Hok) as [-> ->].
  unfold try_catch, generate_try, bind, fetch, setVideoStatus, addLog, modify.
  world_simpl. rewrite Hr.
  destruct body; try discriminate Hm. js_step'.
  rewrite new_Error_or. cbn [prop] in Hm. rewrite Hm. cbn [truthy js_to_string to_string].
  destruct (String.eqb_spec m ""); [contradiction|]. js_step'.
  split_all 2%nat.
  - reflexivity.
  - match goal with
    | |- context [since ?w0 ?w1] =>
        rewrite (since_app w0 w1
                   [EvSetVideoStatus (status_only generating 10);
                    EvFetch "/api/generate" (Some (payload (prompt w)));
                    EvSetVideoStatus (failed_with m)])
    end; [reflexivity|].
    world_simpl. rewrite <- !app_assoc. reflexivity.
  - do 2 eexists. split_all 2%nat; reflexivity.
Qed.


(** X17: a server without API key is reported on the page in the
    route's own words.  While polling, the query answered by the status
    route ends the run in failed with "HeyGen API key not configured";
    while generating, the answer of the generate route ends the attempt
    in failed with the same error after that single call, and the log
    says "Generation failed: HeyGen API key not configured". *)
Theorem missing_key_reaches_the_page (rt : Runtime) (key : option string) :
  js_not key = true ->
  (forall video upstream r w videoId n,
     fst (StatusRoute.GET rt key video upstream) = inr r ->
     (n < 100)%nat ->
     (forall i, (i < n)%nat -> still_processing (reply w i) = true) ->
     reply w n = client_view r ->
     videoStatus (snd (pollVideoStatus videoId w)) =
       failed_with "HeyGen API key not configured" /\
     fetch_count (since w (snd (pollVideoStatus videoId w))) = S n) /\
  (forall body upstream r w,
     fst (GenerateRoute.POST rt key (inr body) upstream) = inr r ->
     (String.length (trim (prompt w)) > 0 /\ String.length (prompt w) <= 1500)%nat ->
     reply w 0 = client_view r ->
     videoStatus (snd (generateVideo w)) = failed_with "HeyGen API key not configured" /\
     fetch_count (since w (snd (generateVideo w))) = 1%nat /\
     exists entry rest,
       logs (snd (generateVideo w)) = entry :: rest /\
       message entry = "Generation failed: HeyGen API key not configured").
Proof.
  intros Hkey.
  assert (Hmsg : carries_message (error_body "HeyGen API key not configured")
                   "HeyGen API key not configured").
  { split; [reflexivity | discriminate]. }
  split.
  - intros video upstream r w videoId n Hroute Hn Hp Hr.
    assert (r = mkReply 500 (error_body "HeyGen API key not configured")) as ->.
    { destruct key as [[|c k]|]; try discriminate Hkey; cbn in Hroute; congruence. }
    now apply (poll_shows_reply_message videoId w n 500 _ _ Hn Hp Hr).
  - intros body upstream r w Hroute Hok Hr.
    assert (r = mkReply 500 (error_body "HeyGen API key not configured")) as ->.
    { destruct key as [[|c k]|]; try discriminate Hkey; cbn in Hroute; congruence. }
    destruct (generate_shows_reply_message w 500 _ _ Hok Hr eq_refl Hmsg)
      as (Hv & Hc & entry & rest & Hl & _ & Hm).
    split_all 2%nat; try assumption. now exists entry, rest.
Qed.

Lemma missing_key_reaches_the_page_witness :
  let r := mkReply 500 (error_body "HeyGen API key not configured") in
  let w := polling_world (replies [processing_reply] (client_view r)) in
  fst (StatusRoute.GET sample_runtime None "v1"
         (always (mkUpstreamResponse 200 json_type (inr processing_text)))) = inr r /\
  videoStatus (snd (pollVideoStatus sample_id w)) = failed_with "HeyGen API key not configured".
Proof.
  cbv zeta. split; [reflexivity|].
  refine (proj1 (proj1 (missing_key_reaches_the_page sample_runtime None eq_refl)
                   "v1" (always (mkUpstreamResponse 200 json_type (inr processing_text)))
                   (mkReply 500 (error_body "HeyGen API key not configured"))
                   (polling_world
                      (replies [processing_reply]
                         (client_view (mkReply 500 (error_body "HeyGen API key not configured")))))
                   sample_id 1%nat eq_refl _ _ eq_refl)).
  - lia.
  - first_replies 1.
Defined.





(** ** More on the routes *)

(** X19: trouble inside a route is answered with 500 and "Server
    error: " followed by the message of the exception.  In the status
    route: when the upstream fetch is rejected, and when the upstream
    declares JSON but its body cannot be read or parsed.  In the generate
    route: when the upstream fetch is rejected or its body cannot be
    read; and, before the key is even looked at and without any upstream
    request, when the request body does not parse. *)
Theorem routes_trouble_is_server_error (rt : Runtime) (k videoId : string) (body : JSON)
    (upstream : UpstreamRequest -> UpstreamOutcome) (e : Thrown) :
  k <> "" ->
  let oops : Thrown + Reply :=
    inr (mkReply 500
           (error_body ("Server error: " ++ error_message e "Unknown server error"))) in
  ((upstream (StatusRoute.request k videoId) = UpRejected e \/
    exists res c,
      upstream (StatusRoute.request k videoId) = UpResponded res /\
      up_content_type res = Some c /\ includes "application/json" c = true /\
      up_json rt res = inl e) ->
   StatusRoute.GET rt (Some k) videoId upstream = (oops, [StatusRoute.request k videoId])) /\
  ((upstream (GenerateRoute.request k body) = UpRejected e \/
    exists res,
      upstream (GenerateRoute.request k body) = UpResponded res /\ up_text res = inl e) ->
   GenerateRoute.POST rt (Some k) (inr body) upstream =
     (oops, [GenerateRoute.request k body])) /\
  (forall key, GenerateRoute.POST rt key (inl e) upstream = (oops, [])).
Proof.
  intros Hk. cbv zeta.
  destruct k as [|c0 k]; [now destruct Hk|].
  split_all 2%nat.
  - intros Htrouble. unfold StatusRoute.GET, StatusRoute.GET_try.
    destruct Htrouble as [-> | (res & c & -> & -> & Hinc & ->)]; [reflexivity|].
    cbn [js_not]. rewrite (includes_nonempty _ Hinc), Hinc. reflexivity.
  - intros Htrouble. unfold GenerateRoute.POST, GenerateRoute.POST_try.
    destruct Htrouble as [-> | (res & -> & ->)]; reflexivity.
  - reflexivity.
Qed.

Lemma routes_trouble_is_server_error_witness :
  StatusRoute.GET sample_runtime (Some "secret") "v1"
    (always (mkUpstreamResponse 200 json_type (inr "<html>"))) =
  (inr (mkReply 500 (error_body "Server error: Unexpected token")),
   [StatusRoute.request "secret" "v1"]).
Proof.
  apply (proj1 (routes_trouble_is_server_error sample_runtime "secret" "v1" JNull
                  (always (mkUpstreamResponse 200 json_type (inr "<html>")))
                  (ErrorObject "Unexpected token") ltac:(discriminate))).
  right. exists (mkUpstreamResponse 200 json_type (inr "<html>")),
    "application/json; charset=utf-8".
  split_all 3%nat; reflexivity.
Defined.

(** ** More on the page *)

Lemma fetched_app t1 t2 : fetched (t1 ++ t2) = (fetched t1 ++ fetched t2)%list.
Proof. apply flat_map_app. Qed.

(** Sharper than [poll_run_any]: the run ends on a query before the
    100th pass, or times out after exactly 100. *)
Lemma poll_trace videoId w :
  exists w' n tail,
    (n <= 100)%nat /\
    (forall i, (i < n)%nat -> still_processing (reply w i) = true) /\
    pollVideoStatus videoId w = (Normal tt, w') /\
    trace w' = (trace w ++ processing_run videoId (videoStatus w) 0 n ++ tail)%list /\
    final_shape videoId (videoStatus w') /\
    (((n < 100)%nat /\ tail = terminal_events videoId (videoStatus w')) \/
     (n = 100%nat /\ tail = [EvSetVideoStatus (videoStatus w')])).
Proof.
  destruct (first_terminal (fun i => still_processing (reply w i)) 100)
    as (n & Hn & Hp & Hstop).
  destruct (Nat.eq_dec n 100) as [-> | Hne].
  - destruct (poll_run_timeout videoId w Hp) as (w' & Hrun & Htr & Hv & _).
    exists w', 100%nat, [EvSetVideoStatus timeout_status].
    rewrite Hv. split_all 5%nat; try assumption; try reflexivity.
    + right. now exists "Video generation timed out".
    + right. now split.
  - destruct (poll_run_terminal videoId n w) as (w' & v & Hrun & Htr & Hv & _ & _ & Hspec);
      [lia | assumption | apply Hstop; lia |].
    exists w', n, (terminal_events videoId v).
    rewrite Hv. split_all 5%nat; try assumption; try reflexivity.
    + destruct Hspec as ([(_ & Hu & ->) | (m & ->)] & _).
      * left. eexists. split; [exact Hu | reflexivity].
      * right. now exists m.
    + left. split; [lia | reflexivity].
Qed.

(** X20: a job identifier that is a non-empty string is passed on
    unchanged.  When the accepted submission's [data.video_id] is the
    non-empty string [s], the record of the processing state holds [s],
    every later network call of the attempt is a GET of [/api/status/]
    followed by [s], between 1 and 100 of them, and a completed record
    still holds [s]. *)
Theorem job_id_passthrough (w : World) (s : string) :
  (String.length (trim (prompt w)) > 0 /\ String.length (prompt w) <= 1500)%nat ->
  submitted_id (reply w 0) = Some (JStr s) ->
  s <> "" ->
  let w' := snd (generateVideo w) in
  exists k rest,
    (1 <= k <= 100)%nat /\
    fetched (since w w') =
      ("/api/generate", Some (payload (prompt w)))
      :: repeat ("/api/status/" ++ s, None) k /\
    statuses (since w w') =
      status_only generating 10
      :: mkVideoStatus processing (Some (JStr s)) None 30 None :: rest /\
    (status (videoStatus w') = completed ->
     videoId (videoStatus w') = Some (JStr s)).
Proof.
  intros Hok Hs Hne. cbv zeta.
  assert (Hid : truthy (submitted_id (reply w 0)) = true).
  { rewrite Hs. cbn. destruct (String.eqb_spec s ""); [contradiction | reflexivity]. }
  change ("/api/status/" ++ s) with ("/api/status/" ++ js_to_string (Some (JStr s))).
  rewrite <- Hs. clear Hs Hne.
  unfold generateVideo, bind, gets.
  destruct (prompt_checks _ Hok) as [-> ->].
  unfold try_catch, setVideoStatus, addLog, modify.
  set (w0 := set_logs _ (emit _ (set_videoStatus _ w))).
  change (reply w 0) with (reply w0 0) in *.
  destruct (generate_try_accepted (prompt w) w0 Hid) as (w1 & Hrun & Htr & Hv & _).
  destruct (poll_trace (submitted_id (reply w0 0)) w1)
    as (w' & n & tail & Hn & _ & Hrun' & Htr' & Hshape & Htail).
  rewrite Hrun, Hrun'. cbn [snd].
  set (id := submitted_id (reply w0 0)) in *.
  set (started := mkVideoStatus processing id None 30 None) in *.
  assert (Hsince : since w w' =
            ([EvSetVideoStatus (status_only generating 10)]
             ++ generate_events (prompt w)
             ++ [EvSetVideoStatus started]
             ++ processing_run id started 0 n ++ tail)%list).
  { apply since_app. rewrite Htr', Htr, Hv. unfold w0; world_simpl.
    rewrite <- !app_assoc. reflexivity. }
  rewrite Hsince.
  exists (Nat.min (S n) 100), (statuses (processing_run id started 0 n ++ tail)).
  split_all 3%nat.
  - lia.
  - rewrite !fetched_app, fetched_processing_run.
    cbn [fetched flat_map generate_events app]. f_equal.
    destruct Htail as [(Hlt & ->) | (-> & ->)].
    + cbn [flat_map terminal_events app]. replace (Nat.min (S n) 100) with (S n) by lia.
      rewrite <- repeat_cons. reflexivity.
    + cbn [flat_map]. rewrite app_nil_r. reflexivity.
  - rewrite !statuses_app. reflexivity.
  - destruct Hshape as [(url & _ & ->) | (m & ->)]; [reflexivity | discriminate].
Qed.

Lemma job_id_passthrough_witness :
  let w := initial_world (replies [created_reply; processing_reply] completed_reply)
             0 (fun _ => "12:00:00") in
  fetched (since w (snd (generateVideo w))) =
  [("/api/generate", Some (payload initial_prompt));
   ("/api/status/v1", None); ("/api/status/v1", None)].
Proof.
  cbv zeta.
  destruct (job_id_passthrough
              (initial_world (replies [created_reply; processing_reply] completed_reply)
                 0 (fun _ => "12:00:00")) "v1")
    as (k & rest & _ & Hfetched & _).
  - vm_compute. split; lia.
  - reflexivity.
  - discriminate.
  - reflexivity.
Defined.

(** X21: how a prompt is refused, and what the badge says meanwhile.  A
    prompt of white space only is refused with "Please enter a prompt",
    also when it is longer than 1500 and the badge reads "Too long"; any
    other prompt longer than 1500 is refused with "Prompt must be less
    than 1500 characters" while the badge reads "Too long"; a prompt of
    exactly 1500 characters that is not blank is sent, the badge reading
    "Valid". *)
Theorem prompt_refusals (w : World) :
  let p := prompt w in
  let w' := snd (generateVideo w) in
  (String.length (trim p) = 0%nat ->
   exists entry, logs w' = entry :: logs w /\ message entry = "Please enter a prompt") /\
  ((String.length (trim p) > 0)%nat -> (String.length p > 1500)%nat ->
   length_badge p = "Too long" /\
   exists entry, logs w' = entry :: logs w /\
                 message entry = "Prompt must be less than 1500 characters") /\
  ((String.length (trim p) > 0)%nat -> String.length p = 1500%nat ->
   length_badge p = "Valid" /\ fetch_count (since w w') >= 1)%nat.
Proof.
  cbv zeta. unfold length_badge. split_all 2%nat.
  - intros Hz. unfold generateVideo, bind, gets, addLog, modify.
    destruct (trim (prompt w)); [|discriminate Hz]. cbn. eexists. split; reflexivity.
  - intros Hnz Hlong. unfold generateVideo, bind, gets, addLog, modify.
    replace (Z.of_nat (String.length (prompt w)) >? 1500) with true
      by (symmetry; rewrite Z.gtb_ltb; apply Z.ltb_lt; lia).
    split; [reflexivity|].
    destruct (trim (prompt w)); [cbn in Hnz; lia|]. cbn. eexists. split; reflexivity.
  - intros Hnz Hlen.
    replace (Z.of_nat (String.length (prompt w)) >? 1500) with false
      by (symmetry; rewrite Z.gtb_ltb; apply Z.ltb_ge; lia).
    split; [reflexivity|].
    destruct (generate_run w) as (w' & tail & -> & Htr & _); [split; lia|].
    cbn [snd]. rewrite (since_app _ _ _ Htr).
    change (EvSetVideoStatus (status_only generating 10) :: generate_events (prompt w) ++ tail)%list
      with ([EvSetVideoStatus (status_only generating 10)]
            ++ generate_events (prompt w) ++ tail)%list.
    rewrite !fetch_count_app. cbn. lia.
Qed.

